(** * Mesh quality metrics of DOLFIN: a shallow embedding

    The development follows [cpp/dolfin/mesh/MeshQuality.cpp]: the scan
    for the extreme radius ratios, the two histograms and the dihedral
    angles of a tetrahedron.  The C++ code computes with [double]; here
    the code is written once over an interface [Double] of the
    operations it uses, and read in two ways:

    - [Binary64]: IEEE 754 binary64, the kernel's primitive floats;
    - [ExactQ]: exact rational arithmetic, rounding left out.

    Statements that only depend on the control flow of the code are
    proved for every reading; statements about quotients and sums are
    proved for exact arithmetic and evaluated on binary64 at concrete
    inputs. *)

From Stdlib Require Import ZArith QArith Qround Qminmax Floats Lia Lqa String.
From stdpp Require Import base option list.

(** ** Outcomes of a call

    A call returns, throws (the exception [log::dolfin_error] raises),
    stops at a failed [assert], or leaves the behaviour defined by C++
    (an out-of-range conversion or index). *)

Inductive outcome (A : Type) : Type :=
| Returns (a : A)
| Throws (location task reason : string)
| AssertFails
| UndefinedBehaviour.

Arguments Returns {A} a.
Arguments Throws {A} location task reason.
Arguments AssertFails {A}.
Arguments UndefinedBehaviour {A}.

#[global] Instance outcome_ret : MRet outcome := fun A a => Returns a.

#[global] Instance outcome_bind : MBind outcome := fun A B k m =>
  match m with
  | Returns a => k a
  | Throws l t r => Throws l t r
  | AssertFails => AssertFails
  | UndefinedBehaviour => UndefinedBehaviour
  end.

(** [assert(b)] in a build that keeps assertions. *)
Definition assert (b : bool) : outcome unit :=
  if b then Returns tt else AssertFails.

(** A range-based [for] loop whose body may fail: the state is threaded
    through the elements in order. *)
Fixpoint for_each {A S : Type} (body : S → A → outcome S) (l : list A) (s : S)
  : outcome S :=
  match l with
  | [] => Returns s
  | a :: l' => s' ← body s a; for_each body l' s'
  end.

(** ** [std::size_t] *)

Definition size_t_modulus : Z := 2 ^ 64.

(** Unsigned subtraction, as in [num_bins - 1]. *)
Definition size_t_sub (a b : Z) : Z := ((a - b) mod size_t_modulus)%Z.

(** ** The operations on [double] the code uses *)

Class Double (D : Type) : Type := {
  d_zero : D;                 (* 0.0 *)
  d_one : D;                  (* 1.0 *)
  d_two : D;                  (* 2.0 *)
  d_max : D;                  (* std::numeric_limits<double>::max() *)
  d_pi : D;                   (* M_PI and DOLFIN_PI *)
  dopp : D → D;
  dadd : D → D → D;
  dsub : D → D → D;
  dmul : D → D → D;
  ddiv : D → D → D;
  dltb : D → D → bool;        (* a < b *)
  dleb : D → D → bool;        (* a <= b *)
  of_size_t : Z → D;          (* static_cast<double>(n) *)
  to_size_t : D → option Z    (* static_cast<std::size_t>(x); None: not representable *)
}.

(** [sqrt] and [acos] of the C library. *)
Class Libm (D : Type) : Type := {
  d_sqrt : D → D;
  d_acos : D → D
}.

(** *** Exact rationals *)

(** Truncation toward zero; the conversion is defined when the truncated
    value is a [size_t]. *)
Definition Q_to_size_t (q : Q) : option Z :=
  let t := (Qnum q ÷ Zpos (Qden q))%Z in
  if ((0 <=? t) && (t <? size_t_modulus))%Z then Some t else None.

Definition Q_ltb (a b : Q) : bool :=
  match (a ?= b)%Q with Lt => true | _ => false end.

(** The value of the largest finite binary64 number. *)
Definition Q_DBL_MAX : Q := inject_Z (9007199254740991 * 2 ^ 971).

(** The value of the binary64 number nearest to pi. *)
Definition Q_M_PI : Q := 884279719003555 # 281474976710656.

#[global] Instance ExactQ : Double Q := {|
  d_zero := 0%Q;
  d_one := 1%Q;
  d_two := 2%Q;
  d_max := Q_DBL_MAX;
  d_pi := Q_M_PI;
  dopp := Qopp;
  dadd := Qplus;
  dsub := Qminus;
  dmul := Qmult;
  ddiv := Qdiv;
  dltb := Q_ltb;
  dleb := Qle_bool;
  of_size_t := inject_Z;
  to_size_t := Q_to_size_t
|}.

(** *** IEEE 754 binary64 *)

(** Conversion of an integer, rounding to nearest even. *)
Definition f64_of_Z (z : Z) : float :=
  SF2Prim (binary_normalize prec emax z 0 false).

(** Truncation toward zero of a finite number; infinities, NaN and values
    outside [0, 2^64) after truncation have no conversion. *)
Definition f64_to_size_t (x : float) : option Z :=
  match Prim2SF x with
  | S754_zero _ => Some 0%Z
  | S754_finite s m e =>
      let t := (if (0 <=? e)%Z then Zpos m * 2 ^ e else Zpos m / 2 ^ (- e))%Z in
      if s then (if (t =? 0)%Z then Some 0%Z else None)
      else if (t <? size_t_modulus)%Z then Some t else None
  | S754_infinity _ | S754_nan => None
  end.

Definition f64_DBL_MAX : float := 0x1.fffffffffffffp+1023%float.
Definition f64_M_PI : float := 0x1.921fb54442d18p+1%float.

#[global] Instance Binary64 : Double float := {|
  d_zero := 0%float;
  d_one := 1%float;
  d_two := 2%float;
  d_max := f64_DBL_MAX;
  d_pi := f64_M_PI;
  dopp := PrimFloat.opp;
  dadd := PrimFloat.add;
  dsub := PrimFloat.sub;
  dmul := PrimFloat.mul;
  ddiv := PrimFloat.div;
  dltb := PrimFloat.ltb;
  dleb := PrimFloat.leb;
  of_size_t := f64_of_Z;
  to_size_t := f64_to_size_t
|}.

(** ** Points, cells and meshes *)

Section MeshQuality.
Context {D : Type} `{Double D} `{Libm D}.

(** Modelled from the spec: [geometry::Point] is declared outside the
    sources at hand; a point has three coordinates and the usual
    difference, scaling, norm, dot and cross product. *)
Record Point : Type := mkPoint { px : D; py : D; pz : D }.

Definition point_sub (p q : Point) : Point :=
  mkPoint (dsub (px p) (px q)) (dsub (py p) (py q)) (dsub (pz p) (pz q)).

Definition point_div (p : Point) (a : D) : Point :=
  mkPoint (ddiv (px p) a) (ddiv (py p) a) (ddiv (pz p) a).

Definition point_dot (p q : Point) : D :=
  dadd (dadd (dmul (px p) (px q)) (dmul (py p) (py q))) (dmul (pz p) (pz q)).

Definition point_norm (p : Point) : D := d_sqrt (point_dot p p).

Definition point_cross (p q : Point) : Point :=
  mkPoint (dsub (dmul (py p) (pz q)) (dmul (pz p) (py q)))
          (dsub (dmul (pz p) (px q)) (dmul (px p) (pz q)))
          (dsub (dmul (px p) (py q)) (dmul (py p) (px q))).

(** What the code reads of a cell: [cell.dim()], [cell.radius_ratio()]
    (computed in Cell.h, outside the sources at hand, hence data here),
    [cell.entities(0)[k]] and [Vertex(cell.mesh(), v).point()]. *)
Record Cell : Type := mkCell {
  cell_dim : nat;
  radius_ratio : D;
  entities0 : nat → nat;
  vertex_point : nat → Point
}.

(** A distributed mesh seen from one process: the cells
    [MeshRange<Cell>(mesh)] visits there, and the cells it visits on
    each of the other processes of [mesh.mpi_comm()], which run the
    same code. *)
Record Mesh : Type := mkMesh {
  local_cells : list Cell;
  remote_cells : list (list Cell)
}.

Definition std_min (a b : D) : D := if dltb b a then b else a.
Definition std_max (a b : D) : D := if dltb a b then b else a.

(** Modelled from the spec: [MPI::min], [MPI::max] and [MPI::sum]
    (dolfin/common/MPI.h is outside the sources at hand) are collective
    reductions: every process contributes one value and receives the
    minimum, maximum or sum of all contributions. *)
Definition MPI_min (x : D) (others : list D) : D := foldl std_min x others.
Definition MPI_max (x : D) (others : list D) : D := foldl std_max x others.
Definition MPI_sum (x : D) (others : list D) : D := foldl dadd x others.

(** Modelled from the spec: [log::dolfin_error] (outside the sources at
    hand) reports the error by raising an exception, so control does not
    come back to the caller. *)
Definition dolfin_error {A : Type} (location task reason : string) : outcome A :=
  Throws location task reason.

(** *** radius_ratio_min_max *)

(** The loop over the cells of one process. *)
Definition radius_ratio_scan (cells : list Cell) : D * D :=
  foldl (fun '(qmin, qmax) cell =>
           (std_min qmin (radius_ratio cell), std_max qmax (radius_ratio cell)))
        (d_max, d_zero) cells.

Definition radius_ratio_min_max (mesh : Mesh) : D * D :=
  let '(qmin, qmax) := radius_ratio_scan (local_cells mesh) in
  let remote := radius_ratio_scan <$> remote_cells mesh in
  (MPI_min qmin (fst <$> remote), MPI_max qmax (snd <$> remote)).

(** *** Histograms *)

(** [bins[i] = static_cast<double>(i) * interval + interval / 2.0] for
    [i] from 0 to [num_bins - 1]. *)
Definition bin_centers (interval : D) (num_bins : Z) : list D :=
  (fun i => dadd (dmul (of_size_t i) interval) (ddiv interval d_two))
    <$> seqZ 0 num_bins.

(** [std::min(static_cast<std::size_t>(x / interval), num_bins - 1)] *)
Definition bin_slot (interval : D) (num_bins : Z) (x : D) : outcome Z :=
  match to_size_t (ddiv x interval) with
  | Some t => Returns (Z.min t (size_t_sub num_bins 1))
  | None => UndefinedBehaviour
  end.

(** [values[slot] += 1.0]; indexing past the end is undefined. *)
Definition bin_increment (values : list D) (slot : Z) : outcome (list D) :=
  match values !! Z.to_nat slot with
  | Some v => Returns (<[Z.to_nat slot := dadd v d_one]> values)
  | None => UndefinedBehaviour
  end.

Definition bin_count (interval : D) (num_bins : Z) (values : list D) (x : D)
  : outcome (list D) :=
  slot ← bin_slot interval num_bins x;
  bin_increment values slot.

(** The per-process part of [radius_ratio_histogram_data]. *)
Definition radius_ratio_local_histogram (interval : D) (num_bins : Z)
    (cells : list Cell) : outcome (list D) :=
  for_each (fun values cell => bin_count interval num_bins values (radius_ratio cell))
           cells (replicate (Z.to_nat num_bins) d_zero).

(** [values[i] = MPI::sum(comm, values[i])] for every [i]: the [i]-th
    collective call adds the [i]-th entries of all processes. *)
Definition sum_reduce (values : list D) (remote : list (list D)) : list D :=
  imap (fun i v => MPI_sum v ((fun vs => default d_zero (vs !! i)) <$> remote))
       values.

(** The diagnostic prints to [std::cout] are left out. *)
Definition radius_ratio_histogram_data (mesh : Mesh) (num_bins : Z)
  : outcome (list D * list D) :=
  _ ← assert (dleb (snd (radius_ratio_min_max mesh)) d_one);
  let interval := ddiv d_one (of_size_t num_bins) in
  let bins := bin_centers interval num_bins in
  values ← radius_ratio_local_histogram interval num_bins (local_cells mesh);
  remote ← mapM (radius_ratio_local_histogram interval num_bins) (remote_cells mesh);
  Returns (bins, sum_reduce values remote).

(** *** Dihedral angles *)

Definition edges : list (nat * nat) :=
  [(2, 3); (1, 3); (1, 2); (0, 3); (0, 2); (0, 1)]%nat.

Definition edge (i : nat) : nat * nat := nth i edges (0, 0)%nat.

(** The body of the loop of [dihedral_angles] for index [i]. *)
Definition dihedral_angle (cell : Cell) (i : nat) : D :=
  let i0 := entities0 cell (fst (edge i)) in
  let i1 := entities0 cell (snd (edge i)) in
  let i2 := entities0 cell (fst (edge (5 - i))) in
  let i3 := entities0 cell (snd (edge (5 - i))) in
  let p0 := vertex_point cell i0 in
  let v1 := point_sub (vertex_point cell i1) p0 in
  let v2 := point_sub (vertex_point cell i2) p0 in
  let v3 := point_sub (vertex_point cell i3) p0 in
  let v1 := point_div v1 (point_norm v1) in
  let v2 := point_div v2 (point_norm v2) in
  let v3 := point_div v3 (point_norm v3) in
  let cphi := ddiv (dsub (point_dot v2 v3) (dmul (point_dot v1 v2) (point_dot v1 v3)))
                   (dmul (point_norm (point_cross v1 v2)) (point_norm (point_cross v1 v3))) in
  d_acos cphi.

(** [dihedral_angles(cell, dh_angle)]: the outcome of the call and the
    contents of the caller's array [dh_angle] when it ends. *)
Definition dihedral_angles (cell : Cell) (dh_angle : list D)
  : outcome unit * list D :=
  if negb (cell_dim cell =? 3)%nat then
    (dolfin_error "MeshQuality.cpp" "calculate dihedral angles"
                  "Only works for 3D cells", dh_angle)
  else
    (Returns tt,
     foldl (fun dh i => <[i := dihedral_angle cell i]> dh)
           (resize 6 d_zero dh_angle) (seq 0 6)).

(** [*std::min_element] and [*std::max_element]: the first smallest and
    the first largest entry; an empty range has none. *)
Definition min_element (l : list D) : outcome D :=
  match l with
  | [] => UndefinedBehaviour
  | x :: l' => Returns (foldl (fun best y => if dltb y best then y else best) x l')
  end.

Definition max_element (l : list D) : outcome D :=
  match l with
  | [] => UndefinedBehaviour
  | x :: l' => Returns (foldl (fun best y => if dltb best y then y else best) x l')
  end.

(** The loop of [dihedral_angles_min_max] over the cells of one process;
    the state is [angs] and the two running extremes. *)
Definition dihedral_angles_scan (cells : list Cell) : outcome (D * D) :=
  '(_, lo, hi) ←
    for_each (fun '(angs, d_ang_min, d_ang_max) cell =>
                let '(r, angs) := dihedral_angles cell angs in
                _ ← r;
                lo ← min_element angs;
                hi ← max_element angs;
                Returns (angs, std_min d_ang_min lo, std_max d_ang_max hi))
             cells
             (replicate 6 d_zero, dadd d_pi d_one, dopp d_one);
  Returns (lo, hi).

Definition dihedral_angles_min_max (mesh : Mesh) : outcome (D * D) :=
  '(d_ang_min, d_ang_max) ← dihedral_angles_scan (local_cells mesh);
  remote ← mapM dihedral_angles_scan (remote_cells mesh);
  Returns (MPI_min d_ang_min (fst <$> remote), MPI_max d_ang_max (snd <$> remote)).

(** The per-process part of [dihedral_angles_histogram_data]; the state
    is [angs] and [values]. *)
Definition dihedral_angles_local_histogram (interval : D) (num_bins : Z)
    (cells : list Cell) : outcome (list D) :=
  '(_, values) ←
    for_each (fun '(angs, values) cell =>
                let '(r, angs) := dihedral_angles cell angs in
                _ ← r;
                values ← for_each (bin_count interval num_bins) angs values;
                Returns (angs, values))
             cells
             (replicate 6 d_zero, replicate (Z.to_nat num_bins) d_zero);
  Returns values.

Definition dihedral_angles_histogram_data (mesh : Mesh) (num_bins : Z)
  : outcome (list D * list D) :=
  lohi ← dihedral_angles_min_max mesh;
  _ ← assert (dleb d_zero (fst lohi));
  lohi ← dihedral_angles_min_max mesh;
  _ ← assert (dleb (snd lohi) d_pi);
  let interval := ddiv d_pi (of_size_t num_bins) in
  let bins := bin_centers interval num_bins in
  values ← dihedral_angles_local_histogram interval num_bins (local_cells mesh);
  remote ← mapM (dihedral_angles_local_histogram interval num_bins) (remote_cells mesh);
  Returns (bins, sum_reduce values remote).

End MeshQuality.

Arguments Point D : clear implicits.
Arguments Cell D : clear implicits.
Arguments Mesh D : clear implicits.

(** ** Resizing a distributed vector *)

Module DistributedVector.

(** Modelled from the spec: the vector backend (EpetraVector.cpp) is
    outside the sources at hand.  The storage of a vector is held by
    reference and may have several live owners; [resize] (re)allocates
    the storage and rebuilds the index map, and fails if the storage is
    shared with another live owner. *)
Record Storage : Type := mkStorage {
  entries : list Q;            (* the locally owned values *)
  global_size : Z;
  local_range : Z * Z;
  owners : nat                 (* live handles that own this storage *)
}.

(** The storages in existence, and a handle: the index of its storage. *)
Abbreviation Heap := (list Storage).
Abbreviation Vector := nat.

(** Modelled from the spec: a second owning handle to the same storage. *)
Definition share (v : Vector) (h : Heap) : Vector * Heap :=
  (v, alter (fun s => mkStorage (entries s) (global_size s) (local_range s)
                                (S (owners s))) v h).

(** Modelled from the spec: [resize(global_size)] on one process, whose
    local range is [(0, size())].  The outcome of the call and the heap
    when it ends. *)
Definition resize (v : Vector) (N : Z) (h : Heap) : outcome unit * Heap :=
  match h !! v with
  | None => (UndefinedBehaviour, h)
  | Some s =>
      if (owners s =? 1)%nat then
        (Returns tt,
         <[v := mkStorage (replicate (Z.to_nat N) 0%Q) N (0, N)%Z 1]> h)
      else
        (Throws "EpetraVector.cpp" "resize vector"
                "More than one object points to the underlying storage", h)
  end.

End DistributedVector.

(** ** Example data *)

(** A coarse rational [sqrt] and [acos] on the grid of multiples of
    1/4096, enough to run the code on examples; the theorems on dihedral
    angles hold for every [Libm]. *)
Definition Q_grid (q : Q) : Q := Qred (Qfloor (q * 4096) # 4096).

Definition Q_sqrt (q : Q) : Q :=
  let r := Qred q in
  Qred (Z.sqrt (Qnum r * Zpos (Qden r) * 2 ^ 24) # (Qden r * 2 ^ 12)).

Definition Q_acos (x : Q) : Q :=
  let y := Q_grid x in
  Q_grid (Q_M_PI / 2 - (y + y * y * y / 6 + 3 * y * y * y * y * y / 40)).

#[global] Instance CoarseQ : Libm Q := {| d_sqrt := Q_sqrt; d_acos := Q_acos |}.

(** The tetrahedron with vertices 0, e1, e2, e3, and a triangle on its
    first three vertices. *)
Definition corner_points (v : nat) : Point Q :=
  match v with
  | 1%nat => mkPoint 1 0 0
  | 2%nat => mkPoint 0 1 0
  | 3%nat => mkPoint 0 0 1
  | _ => mkPoint 0 0 0
  end%Q.

Definition corner_tetrahedron : Cell Q :=
  mkCell 3 (183 # 250) (fun k => k) corner_points.

Definition corner_triangle : Cell Q :=
  mkCell 2 (207 # 250) (fun k => k) corner_points.

(** Two cells on one process, and the same two cells on two processes. *)
Definition two_cells (D : Type) (r1 r2 : D) : Mesh D :=
  mkMesh [mkCell 3 r1 (fun k => k) (fun _ => mkPoint r1 r1 r1);
          mkCell 3 r2 (fun k => k) (fun _ => mkPoint r2 r2 r2)] [].

Definition split_cells (D : Type) (r1 r2 : D) : Mesh D :=
  mkMesh [mkCell 3 r1 (fun k => k) (fun _ => mkPoint r1 r1 r1)]
         [[mkCell 3 r2 (fun k => k) (fun _ => mkPoint r2 r2 r2)]].

Definition empty_mesh (D : Type) (ranks : nat) : Mesh D :=
  mkMesh [] (replicate ranks []).

(** The same coarse [acos] on binary64, with the correctly rounded square
    root of the processor. *)
#[global] Instance CoarseF64 : Libm float := {|
  d_sqrt := PrimFloat.sqrt;
  d_acos := fun x =>
    (f64_M_PI / 2 - (x + x * x * x / 6 + 3 * x * x * x * x * x / 40))%float
|}.

(** The corner tetrahedron and triangle with binary64 coordinates. *)
Definition corner_points_f64 (v : nat) : Point float :=
  match v with
  | 1%nat => mkPoint 1 0 0
  | 2%nat => mkPoint 0 1 0
  | 3%nat => mkPoint 0 0 1
  | _ => mkPoint 0 0 0
  end%float.

Definition corner_tetrahedron_f64 : Cell float :=
  mkCell 3 0x1.76c8b43958106p-1%float (fun k => k) corner_points_f64.

Definition corner_triangle_f64 : Cell float :=
  mkCell 2 0x1.a7ef9db22d0e5p-1%float (fun k => k) corner_points_f64.

(** ** The Matplotlib scripts *)

(** The text [stream << x] appends for a [double] [x]; the formatting is
    done by the C++ library. *)
Class Format (D : Type) : Type := {
  show_double : D → string
}.

(** [std::endl] and the double quote. *)
Definition endl : string := String (Ascii.ascii_of_nat 10) EmptyString.
Definition dquote : string := String (Ascii.ascii_of_nat 34) EmptyString.

(** A script: every piece of text is followed by [std::endl]. *)
Definition script (lines : list string) : string :=
  String.concat "" ((fun line => (line ++ endl)%string) <$> lines).

Section Matplotlib.
Context {D : Type} `{Double D} `{Libm D} `{Format D}.
Open Scope string_scope.

(** The streams [bins] and [values] of the two functions: the opening
    text and entry 0 of each vector, then for [i] from 1 to
    [data.first.size() - 1] a comma and entry [i] of each vector, then the
    closing bracket.  Reading past the end of a vector is undefined. *)
Definition histogram_lists (data : list D * list D) : outcome (string * string) :=
  match fst data !! 0%nat, snd data !! 0%nat with
  | Some b0, Some v0 =>
      '(bins, values) ←
        for_each (fun '(bins, values) i =>
                    match fst data !! i, snd data !! i with
                    | Some b, Some v =>
                        Returns ((bins ++ ", " ++ show_double b)%string,
                                 (values ++ ", " ++ show_double v)%string)
                    | _, _ => UndefinedBehaviour
                    end)
                 (seq 1 (length (fst data) - 1))
                 (("    bins = [" ++ show_double b0)%string,
                  ("    values = [" ++ show_double v0)%string);
      Returns ((bins ++ "]")%string, (values ++ "]")%string)
  | _, _ => UndefinedBehaviour
  end.

(** [assert(!data.first.empty())] and
    [assert(data.first.size() == data.second.size())] *)
Definition histogram_asserts (data : list D * list D) : outcome unit :=
  _ ← assert (match fst data with [] => false | _ :: _ => true end);
  assert (length (fst data) =? length (snd data))%nat.

Definition radius_ratio_matplotlib_histogram (mesh : Mesh D) (num_intervals : Z)
  : outcome string :=
  data ← radius_ratio_histogram_data mesh num_intervals;
  _ ← histogram_asserts data;
  '(bins, values) ← histogram_lists data;
  Returns (script [
    "def plot_histogram():";
    "    import matplotlib.pyplot";
    bins;
    values;
    "";
    "    matplotlib.pylab.xlim([0, 1])";
    "    width = 0.7*(bins[1] - bins[0])";
    "    matplotlib.pylab.xlabel('radius ratio')";
    "    matplotlib.pylab.ylabel('number of cells')";
    "    matplotlib.pylab.bar(bins, values, align='center', width=width)";
    "    matplotlib.pylab.show()";
    "";
    "try:";
    "    import matplotlib.pylab";
    "except ImportError:";
    ("    print(" ++ dquote
       ++ "Plotting mesh quality histogram requires Matplotlib" ++ dquote ++ ")")%string;
    "else:";
    "    plot_histogram()"
  ]).

Definition dihedral_angles_matplotlib_histogram (mesh : Mesh D) (num_intervals : Z)
  : outcome string :=
  data ← dihedral_angles_histogram_data mesh num_intervals;
  _ ← histogram_asserts data;
  '(bins, values) ← histogram_lists data;
  Returns (script [
    "def plot_histogram():";
    "    import matplotlib.pyplot";
    bins;
    values;
    "";
    "    width = 0.7*(bins[1] - bins[0])";
    "    matplotlib.pylab.xlabel('dihedral angles')";
    "    matplotlib.pylab.ylabel('number of edges')";
    "    matplotlib.pylab.bar(bins, values, align='center', width=width)";
    "    matplotlib.pylab.show()";
    "";
    "try:";
    "    import matplotlib.pylab";
    "except ImportError:";
    ("    print(" ++ dquote
       ++ "Plotting mesh quality histogram requires Matplotlib" ++ dquote ++ ")")%string;
    "else:";
    "    plot_histogram()"
  ]).

End Matplotlib.

(** A stand-in for the formatting of the C++ library on the examples: a
    rational as numerator, slash, denominator of its reduced form, in
    decimal digits. *)
Fixpoint show_digits (fuel : nat) (n : N) (acc : string) : string :=
  match fuel with
  | O => acc
  | S fuel' =>
      let acc' := String (Ascii.ascii_of_N (48 + n mod 10)) acc in
      if (n <? 10)%N then acc' else show_digits fuel' (n / 10) acc'
  end.

Definition show_Z (z : Z) : string :=
  let digits := show_digits (S (N.to_nat (N.log2 (Z.abs_N z)))) (Z.abs_N z) "" in
  if (z <? 0)%Z then ("-" ++ digits)%string else digits.

#[global] Instance FractionQ : Format Q := {|
  show_double := fun q =>
    let r := Qred q in (show_Z (Qnum r) ++ "/" ++ show_Z (Zpos (Qden r)))%string
|}.

(** ** Notions of the specification *)

Section Notions.
Context {D : Type} `{Double D} `{Libm D}.

(** All the cells of the mesh, process by process. *)
Definition all_cells (mesh : Mesh D) : list (Cell D) :=
  local_cells mesh ++ concat (remote_cells mesh).

(** The unit vector from local vertex [a] of the cell towards local
    vertex [b]. *)
Definition unit_edge_vector (cell : Cell D) (a b : nat) : Point D :=
  let v := point_sub (vertex_point cell (entities0 cell b))
                     (vertex_point cell (entities0 cell a)) in
  point_div v (point_norm v).

(** acos((v2.v3 - (v1.v2)(v1.v3)) / (|v1 x v2| |v1 x v3|)) *)
Definition dihedral_formula (v1 v2 v3 : Point D) : D :=
  d_acos (ddiv (dsub (point_dot v2 v3) (dmul (point_dot v1 v2) (point_dot v1 v3)))
               (dmul (point_norm (point_cross v1 v2))
                     (point_norm (point_cross v1 v3)))).

(** The angle at the edge from local vertex [a] to [b], the opposite
    edge being the one from [c] to [d]. *)
Definition dihedral_at (cell : Cell D) (a b c d : nat) : D :=
  dihedral_formula (unit_edge_vector cell a b) (unit_edge_vector cell a c)
                   (unit_edge_vector cell a d).

(** The six angles of a cell, in the order of the code. *)
Definition cell_angles (cell : Cell D) : list D :=
  dihedral_angle cell <$> seq 0 6.

(** The angles of all the cells of a list, cell by cell, and of the mesh. *)
Definition angles_of (cells : list (Cell D)) : list D :=
  concat (cell_angles <$> cells).

Definition all_angles (mesh : Mesh D) : list D := angles_of (all_cells mesh).

End Notions.

(** "The direct min/max over a radius_ratio scan": the least and the
    greatest of the ratios, when there is one. *)
Definition direct_min_max (ratios : list Q) : option (Q * Q) :=
  match ratios with
  | [] => None
  | r :: rs => Some (foldl Qmin r rs, foldl Qmax r rs)
  end.

(** "floor(x / bin_width) clamped to num_bins - 1" *)
Definition bin_index (w : Q) (n : Z) (x : Q) : Z :=
  Z.min (Qfloor (x / w)) (n - 1).

(** "sum(values)" *)
Definition Qsum (l : list Q) : Q := foldr Qplus 0%Q l.

(** How many of the samples [xs] have bin index [j]. *)
Definition tally (w : Q) (n : Z) (xs : list Q) (j : nat) : Z :=
  Z.of_nat (length (filter (fun x => bin_index w n x = Z.of_nat j) xs)).

(** The entries of [vs] are the numbers [f 0], [f 1], ... *)
Definition counts (vs : list Q) (f : nat → Z) : Prop :=
  ∀ j v, vs !! j = Some v → (v == inject_Z (f j))%Q.

(** [f s + f (s + 1) + ... + f (s + m - 1)] *)
Definition Zsum_from (f : nat → Z) (s m : nat) : Z :=
  foldr Z.add 0%Z (f <$> seq s m).

(** * Properties *)

(** ** Outcomes and loops *)

Lemma for_each_cons {A S : Type} (body : S → A → outcome S) (a : A) (l : list A) (s : S) :
  for_each body (a :: l) s = body s a ≫= for_each body l.
Proof. reflexivity. Qed.

Lemma for_each_app {A S : Type} (body : S → A → outcome S) (l1 l2 : list A) (s : S) :
  for_each body (l1 ++ l2) s = for_each body l1 s ≫= for_each body l2.
Proof.
  revert s. induction l1 as [|a l1 IH]; intros s; simpl; [done|].
  destruct (body s a); simpl; auto.
Qed.

(** A loop whose body keeps an invariant and never stops at an assertion
    does not stop at one either. *)
Lemma for_each_no_assert {A S : Type} (body : S → A → outcome S) (l : list A) (s : S) :
  (∀ s a, body s a ≠ AssertFails) → for_each body l s ≠ AssertFails.
Proof.
  intros Hbody. revert s. induction l as [|a l IH]; intros s; simpl; [done|].
  specialize (Hbody s a). destruct (body s a); simpl; auto.
Qed.

Lemma mapM_no_assert {A B : Type} (f : A → outcome B) (l : list A) :
  (∀ a, f a ≠ AssertFails) → mapM f l ≠ AssertFails.
Proof.
  intros Hf. induction l as [|a l IH]; simpl; [done|].
  specialize (Hf a). destruct (f a); simpl; try done.
  destruct (mapM f l); simpl; done.
Qed.

(** ** The scan for the extreme radius ratios *)

Section Scan.
Context {D : Type} `{Double D}.

Lemma std_min_cases (a b : D) : std_min a b = a ∨ std_min a b = b.
Proof. unfold std_min. destruct (dltb b a); auto. Qed.

Lemma std_max_cases (a b : D) : std_max a b = a ∨ std_max a b = b.
Proof. unfold std_max. destruct (dltb a b); auto. Qed.

Lemma std_min_same (a : D) : std_min a a = a.
Proof. unfold std_min. destruct (dltb a a); auto. Qed.

Lemma std_max_same (a : D) : std_max a a = a.
Proof. unfold std_max. destruct (dltb a a); auto. Qed.

(** The two components of the scan are independent folds. *)
Lemma radius_ratio_scan_from (cells : list (Cell D)) (lo hi : D) :
  foldl (fun '(qmin, qmax) cell =>
           (std_min qmin (radius_ratio cell), std_max qmax (radius_ratio cell)))
        (lo, hi) cells
  = (foldl std_min lo (radius_ratio <$> cells),
     foldl std_max hi (radius_ratio <$> cells)).
Proof.
  revert lo hi. induction cells as [|c cells IH]; intros lo hi; simpl; [done|].
  apply IH.
Qed.

Lemma radius_ratio_scan_folds (cells : list (Cell D)) :
  radius_ratio_scan cells
  = (foldl std_min d_max (radius_ratio <$> cells),
     foldl std_max d_zero (radius_ratio <$> cells)).
Proof. apply radius_ratio_scan_from. Qed.

(** [std::max] returns one of its arguments, so a property of the start
    value and of every entry holds of the fold. *)
Lemma foldl_std_max_ind (P : D → Prop) (l : list D) (x : D) :
  P x → Forall P l → P (foldl std_max x l).
Proof.
  revert x. induction l as [|y l IH]; intros x Hx Hl; simpl; [done|].
  inversion Hl; subst. apply IH; [|done].
  destruct (std_max_cases x y) as [-> | ->]; done.
Qed.

Lemma foldl_std_min_ind (P : D → Prop) (l : list D) (x : D) :
  P x → Forall P l → P (foldl std_min x l).
Proof.
  revert x. induction l as [|y l IH]; intros x Hx Hl; simpl; [done|].
  inversion Hl; subst. apply IH; [|done].
  destruct (std_min_cases x y) as [-> | ->]; done.
Qed.

Lemma foldl_std_min_const (x : D) (l : list D) :
  Forall (eq x) l → foldl std_min x l = x.
Proof.
  induction 1 as [|y l <- _ IH]; simpl; [done|]. by rewrite std_min_same.
Qed.

Lemma foldl_std_max_const (x : D) (l : list D) :
  Forall (eq x) l → foldl std_max x l = x.
Proof.
  induction 1 as [|y l <- _ IH]; simpl; [done|]. by rewrite std_max_same.
Qed.

End Scan.

Section ScanProperties.
Context {D : Type} `{Double D}.

Lemma radius_ratio_min_max_folds (mesh : Mesh D) :
  radius_ratio_min_max mesh
  = (MPI_min (fst (radius_ratio_scan (local_cells mesh)))
             (fst <$> (radius_ratio_scan <$> remote_cells mesh)),
     MPI_max (snd (radius_ratio_scan (local_cells mesh)))
             (snd <$> (radius_ratio_scan <$> remote_cells mesh))).
Proof.
  unfold radius_ratio_min_max. by destruct (radius_ratio_scan (local_cells mesh)).
Qed.

(** Without cells the start values of the scan come back, on every
    process and after the reductions. *)
Lemma radius_ratio_min_max_no_cells (mesh : Mesh D) :
  local_cells mesh = [] → Forall (eq []) (remote_cells mesh) →
  radius_ratio_min_max mesh = (d_max, d_zero).
Proof.
  intros Hlocal Hremote. rewrite radius_ratio_min_max_folds, Hlocal. simpl.
  unfold MPI_min, MPI_max. f_equal.
  - apply foldl_std_min_const, Forall_fmap, Forall_fmap.
    eapply Forall_impl; [exact Hremote|]. by intros ? <-.
  - apply foldl_std_max_const, Forall_fmap, Forall_fmap.
    eapply Forall_impl; [exact Hremote|]. by intros ? <-.
Qed.

(** A property of 0.0 that every radius ratio has is a property of the
    global maximum. *)
Lemma radius_ratio_max_ind (P : D → Prop) (mesh : Mesh D) :
  P d_zero → Forall (fun c => P (radius_ratio c)) (all_cells mesh) →
  P (snd (radius_ratio_min_max mesh)).
Proof.
  intros H0 Hall. unfold all_cells in Hall.
  apply Forall_app in Hall as [Hlocal Hremote].
  rewrite radius_ratio_min_max_folds. simpl. unfold MPI_max.
  apply foldl_std_max_ind.
  - rewrite radius_ratio_scan_folds. simpl.
    apply foldl_std_max_ind; [done|]. by apply Forall_fmap.
  - apply Forall_fmap, Forall_fmap.
    rewrite Forall_concat in Hremote.
    eapply Forall_impl; [exact Hremote|]. intros cells Hcells. simpl.
    rewrite radius_ratio_scan_folds. simpl.
    apply foldl_std_max_ind; [done|]. by apply Forall_fmap.
Qed.

Lemma length_sum_reduce (values : list D) (remote : list (list D)) :
  length (sum_reduce values remote) = length values.
Proof. apply length_imap. Qed.

Lemma bin_count_no_assert (interval : D) (num_bins : Z) (values : list D) (x : D) :
  bin_count interval num_bins values x ≠ AssertFails.
Proof.
  unfold bin_count, bin_slot, bin_increment.
  destruct (to_size_t (ddiv x interval)); simpl; [|done].
  destruct (values !! _); done.
Qed.

Lemma radius_ratio_local_histogram_no_assert (interval : D) (num_bins : Z)
    (cells : list (Cell D)) :
  radius_ratio_local_histogram interval num_bins cells ≠ AssertFails.
Proof.
  apply for_each_no_assert. intros values c. apply bin_count_no_assert.
Qed.

End ScanProperties.

(** C8: if every cell's radius ratio lies in (0, 1], the global maximum
    that [radius_ratio_histogram_data] asserts to be at most 1.0 is at
    most 1.0, so the call never stops at its assertion.  This holds for
    every reading of [double] in which 0.0 <= 1.0. *)
Theorem radius_ratio_assertion_holds {D : Type} `{Double D}
    (mesh : Mesh D) (num_bins : Z) :
  dleb d_zero d_one = true →
  Forall (fun c => dltb d_zero (radius_ratio c) = true
                   ∧ dleb (radius_ratio c) d_one = true) (all_cells mesh) →
  dleb (snd (radius_ratio_min_max mesh)) d_one = true
  ∧ radius_ratio_histogram_data mesh num_bins ≠ AssertFails.
Proof.
  intros H01 Hall.
  assert (Hmax : dleb (snd (radius_ratio_min_max mesh)) d_one = true).
  { apply (radius_ratio_max_ind (fun x => dleb x d_one = true)); [done|].
    eapply Forall_impl; [exact Hall|]. by intros c [_ ?]. }
  split; [done|].
  unfold radius_ratio_histogram_data. rewrite Hmax. simpl.
  pose proof (radius_ratio_local_histogram_no_assert
                (ddiv d_one (of_size_t num_bins)) num_bins (local_cells mesh)) as Hl.
  destruct (radius_ratio_local_histogram _ _ (local_cells mesh)); simpl; try done.
  pose proof (mapM_no_assert
                (radius_ratio_local_histogram (ddiv d_one (of_size_t num_bins)) num_bins)
                (remote_cells mesh)
                (radius_ratio_local_histogram_no_assert _ _)) as Hr.
  destruct (mapM _ (remote_cells mesh)); simpl; done.
Qed.

Lemma radius_ratio_assertion_holds_witness :
  dleb (snd (radius_ratio_min_max (split_cells float 0.5%float 1%float))) d_one = true
  ∧ radius_ratio_histogram_data (split_cells float 0.5%float 1%float) 4 ≠ AssertFails.
Proof.
  apply radius_ratio_assertion_holds; [reflexivity|].
  repeat constructor.
Defined.

(** C10: on a mesh without cells on any process [radius_ratio_min_max]
    returns the start values of its scan, (DBL_MAX, 0.0): the returned
    minimum is larger than the returned maximum. *)
Theorem radius_ratio_min_max_empty_mesh (mesh : Mesh float) :
  local_cells mesh = [] → Forall (eq []) (remote_cells mesh) →
  radius_ratio_min_max mesh = (f64_DBL_MAX, 0%float)
  ∧ (snd (radius_ratio_min_max mesh) <? fst (radius_ratio_min_max mesh))%float = true.
Proof.
  intros Hlocal Hremote.
  rewrite (radius_ratio_min_max_no_cells mesh Hlocal Hremote). by split.
Qed.

Lemma radius_ratio_min_max_empty_mesh_witness :
  radius_ratio_min_max (empty_mesh float 3) = (f64_DBL_MAX, 0%float)
  ∧ (snd (radius_ratio_min_max (empty_mesh float 3))
     <? fst (radius_ratio_min_max (empty_mesh float 3)))%float = true.
Proof.
  apply radius_ratio_min_max_empty_mesh; [reflexivity|].
  repeat constructor.
Defined.

(** ** Dihedral angles *)

Section DihedralAngles.
Context {D : Type} `{Double D} `{Libm D}.

(** After [resize(6)] the six assignments overwrite every entry. *)
Lemma fill_six (f : nat → D) (dh : list D) :
  foldl (fun dh i => <[i := f i]> dh) (resize 6 d_zero dh) (seq 0 6)
  = f <$> seq 0 6.
Proof.
  pose proof (length_resize dh 6 d_zero) as Hlen.
  destruct (resize 6 d_zero dh) as [|x0 [|x1 [|x2 [|x3 [|x4 [|x5 [|x6 l]]]]]]];
    simpl in Hlen; try discriminate.
  reflexivity.
Qed.

End DihedralAngles.

(** C4: on a cell whose dimension is not 3, [dihedral_angles] raises the
    error of [dolfin_error] and the caller's array is as it was before the
    call: same entries, same length. *)
Theorem dihedral_angles_rejects_other_dimensions {D : Type} `{Double D} `{Libm D}
    (cell : Cell D) (dh_angle : list D) :
  cell_dim cell ≠ 3%nat →
  dihedral_angles cell dh_angle
  = (Throws "MeshQuality.cpp" "calculate dihedral angles" "Only works for 3D cells",
     dh_angle).
Proof.
  intros Hdim. unfold dihedral_angles.
  destruct (Nat.eqb_spec (cell_dim cell) 3) as [Heq | _]; [done|]. reflexivity.
Qed.

Lemma dihedral_angles_rejects_other_dimensions_witness :
  dihedral_angles corner_triangle [1 # 3; 2 # 3]%Q
  = (Throws "MeshQuality.cpp" "calculate dihedral angles" "Only works for 3D cells",
     [1 # 3; 2 # 3]%Q).
Proof.
  apply dihedral_angles_rejects_other_dimensions. simpl. lia.
Defined.

(** C5: on a cell of dimension 3, [dihedral_angles] returns and leaves
    exactly six entries in the array, whatever it held before; entry [i] is
    acos((v2.v3 - (v1.v2)(v1.v3)) / (|v1 x v2| |v1 x v3|)) for the unit
    vectors v1, v2, v3 from the first vertex of edge [i] to its second
    vertex and to the two vertices of the opposite edge [5 - i], the edges
    being numbered (2,3), (1,3), (1,2), (0,3), (0,2), (0,1). *)
Theorem dihedral_angles_tetrahedron {D : Type} `{Double D} `{Libm D}
    (cell : Cell D) (dh_angle : list D) :
  cell_dim cell = 3%nat →
  ∃ angles,
    dihedral_angles cell dh_angle = (Returns tt, angles)
    ∧ length angles = 6%nat
    ∧ angles = [dihedral_at cell 2 3 0 1; dihedral_at cell 1 3 0 2;
                dihedral_at cell 1 2 0 3; dihedral_at cell 0 3 1 2;
                dihedral_at cell 0 2 1 3; dihedral_at cell 0 1 2 3].
Proof.
  intros Hdim. eexists. split; [|split].
  - unfold dihedral_angles. rewrite Hdim. simpl negb. cbv iota.
    rewrite fill_six. reflexivity.
  - reflexivity.
  - reflexivity.
Qed.

Lemma dihedral_angles_tetrahedron_witness :
  ∃ angles,
    dihedral_angles corner_tetrahedron [1 # 3]%Q = (Returns tt, angles)
    ∧ length angles = 6%nat
    ∧ angles = [dihedral_at corner_tetrahedron 2 3 0 1;
                dihedral_at corner_tetrahedron 1 3 0 2;
                dihedral_at corner_tetrahedron 1 2 0 3;
                dihedral_at corner_tetrahedron 0 3 1 2;
                dihedral_at corner_tetrahedron 0 2 1 3;
                dihedral_at corner_tetrahedron 0 1 2 3].
Proof.
  apply dihedral_angles_tetrahedron. reflexivity.
Defined.

(** ** Exact arithmetic: order *)

Section ExactOrder.
Open Scope Q_scope.

Lemma Q_ltb_true (a b : Q) : Q_ltb a b = true ↔ a < b.
Proof.
  unfold Q_ltb. rewrite Qlt_alt. destruct (a ?= b); split; congruence.
Qed.

Lemma Q_ltb_false (a b : Q) : Q_ltb a b = false ↔ b <= a.
Proof.
  unfold Q_ltb. rewrite Qle_alt, <- Qgt_alt, Qlt_alt.
  destruct (a ?= b); simpl; split; congruence.
Qed.

Lemma Q_std_min_le (a b : Q) : std_min a b <= a ∧ std_min a b <= b.
Proof.
  unfold std_min. simpl. destruct (Q_ltb b a) eqn:E.
  - apply Q_ltb_true in E. split; lra.
  - apply Q_ltb_false in E. split; lra.
Qed.

Lemma Q_std_max_ge (a b : Q) : a <= std_max a b ∧ b <= std_max a b.
Proof.
  unfold std_max. simpl. destruct (Q_ltb a b) eqn:E.
  - apply Q_ltb_true in E. split; lra.
  - apply Q_ltb_false in E. split; lra.
Qed.

Lemma Q_foldl_std_min_le (l : list Q) (x : Q) :
  foldl std_min x l <= x ∧ Forall (fun y => foldl std_min x l <= y) l.
Proof.
  revert x. induction l as [|y l IH]; intros x; simpl.
  - split; [lra | constructor].
  - destruct (IH (std_min x y)) as [Hx Hl].
    destruct (Q_std_min_le x y) as [H1 H2].
    split; [lra|]. constructor; [lra | done].
Qed.

Lemma Q_foldl_std_max_ge (l : list Q) (x : Q) :
  x <= foldl std_max x l ∧ Forall (fun y => y <= foldl std_max x l) l.
Proof.
  revert x. induction l as [|y l IH]; intros x; simpl.
  - split; [lra | constructor].
  - destruct (IH (std_max x y)) as [Hx Hl].
    destruct (Q_std_max_ge x y) as [H1 H2].
    split; [lra|]. constructor; [lra | done].
Qed.

(** Folding [Qmin] and [Qmax] from the first entry: the least and the
    greatest entry of a list that is not empty. *)
Lemma Q_foldl_Qmin_le (l : list Q) (x : Q) :
  foldl Qmin x l <= x ∧ Forall (fun y => foldl Qmin x l <= y) l.
Proof.
  revert x. induction l as [|y l IH]; intros x; simpl.
  - split; [lra | constructor].
  - destruct (IH (Qmin x y)) as [Hx Hl].
    pose proof (Q.le_min_l x y). pose proof (Q.le_min_r x y).
    split; [lra|]. constructor; [lra | done].
Qed.

Lemma Q_foldl_Qmax_ge (l : list Q) (x : Q) :
  x <= foldl Qmax x l ∧ Forall (fun y => y <= foldl Qmax x l) l.
Proof.
  revert x. induction l as [|y l IH]; intros x; simpl.
  - split; [lra | constructor].
  - destruct (IH (Qmax x y)) as [Hx Hl].
    pose proof (Q.le_max_l x y). pose proof (Q.le_max_r x y).
    split; [lra|]. constructor; [lra | done].
Qed.

Lemma Q_foldl_Qmin_attained (l : list Q) (x : Q) :
  Exists (fun y => y == foldl Qmin x l) (x :: l).
Proof.
  revert x. induction l as [|y l IH]; intros x; simpl.
  - left. reflexivity.
  - specialize (IH (Qmin x y)). inversion IH as [? ? Hhd | ? ? Htl]; subst.
    + destruct (Q.min_dec x y) as [E | E].
      * left. rewrite <- Hhd. symmetry. exact E.
      * right. left. rewrite <- Hhd. symmetry. exact E.
    + right. right. exact Htl.
Qed.

Lemma Q_foldl_Qmax_attained (l : list Q) (x : Q) :
  Exists (fun y => y == foldl Qmax x l) (x :: l).
Proof.
  revert x. induction l as [|y l IH]; intros x; simpl.
  - left. reflexivity.
  - specialize (IH (Qmax x y)). inversion IH as [? ? Hhd | ? ? Htl]; subst.
    + destruct (Q.max_dec x y) as [E | E].
      * left. rewrite <- Hhd. symmetry. exact E.
      * right. left. rewrite <- Hhd. symmetry. exact E.
    + right. right. exact Htl.
Qed.

End ExactOrder.

(** A property of DBL_MAX that every radius ratio has is a property of the
    global minimum. *)
Lemma radius_ratio_min_ind {D : Type} `{Double D} (P : D → Prop) (mesh : Mesh D) :
  P d_max → Forall (fun c => P (radius_ratio c)) (all_cells mesh) →
  P (fst (radius_ratio_min_max mesh)).
Proof.
  intros H0 Hall. unfold all_cells in Hall.
  apply Forall_app in Hall as [Hlocal Hremote].
  rewrite radius_ratio_min_max_folds. simpl. unfold MPI_min.
  apply foldl_std_min_ind.
  - rewrite radius_ratio_scan_folds. simpl.
    apply foldl_std_min_ind; [done|]. by apply Forall_fmap.
  - apply Forall_fmap, Forall_fmap.
    rewrite Forall_concat in Hremote.
    eapply Forall_impl; [exact Hremote|]. intros cells Hcells. simpl.
    rewrite radius_ratio_scan_folds. simpl.
    apply foldl_std_min_ind; [done|]. by apply Forall_fmap.
Qed.

Section ExactExtrema.
Open Scope Q_scope.

Lemma radius_ratio_min_lower_bound (mesh : Mesh Q) :
  Forall (fun c => fst (radius_ratio_min_max mesh) <= radius_ratio c) (all_cells mesh).
Proof.
  rewrite radius_ratio_min_max_folds. simpl. unfold MPI_min.
  set (m0 := (radius_ratio_scan (local_cells mesh)).1).
  set (ms := fst <$> (radius_ratio_scan <$> remote_cells mesh)).
  destruct (Q_foldl_std_min_le ms m0) as [H0 Hms].
  unfold all_cells. apply Forall_app. split.
  - subst m0. rewrite radius_ratio_scan_folds in H0 |- *. simpl in *.
    destruct (Q_foldl_std_min_le (radius_ratio <$> local_cells mesh) Q_DBL_MAX) as [_ Hl].
    rewrite Forall_fmap in Hl. eapply Forall_impl; [exact Hl|].
    intros c Hc. simpl in Hc. simpl in H0. lra.
  - apply Forall_concat. subst ms.
    rewrite !Forall_fmap in Hms.
    eapply Forall_impl; [exact Hms|]. intros cells Hcells. simpl in Hcells.
    rewrite radius_ratio_scan_folds in Hcells. simpl in Hcells.
    destruct (Q_foldl_std_min_le (radius_ratio <$> cells) Q_DBL_MAX) as [_ Hl].
    rewrite Forall_fmap in Hl. eapply Forall_impl; [exact Hl|].
    intros c Hc. simpl in Hc. lra.
Qed.

Lemma radius_ratio_max_upper_bound (mesh : Mesh Q) :
  Forall (fun c => radius_ratio c <= snd (radius_ratio_min_max mesh)) (all_cells mesh).
Proof.
  rewrite radius_ratio_min_max_folds. simpl. unfold MPI_max.
  set (m0 := (radius_ratio_scan (local_cells mesh)).2).
  set (ms := snd <$> (radius_ratio_scan <$> remote_cells mesh)).
  destruct (Q_foldl_std_max_ge ms m0) as [H0 Hms].
  unfold all_cells. apply Forall_app. split.
  - subst m0. rewrite radius_ratio_scan_folds in H0 |- *. simpl in *.
    destruct (Q_foldl_std_max_ge (radius_ratio <$> local_cells mesh) 0) as [_ Hl].
    rewrite Forall_fmap in Hl. eapply Forall_impl; [exact Hl|].
    intros c Hc. simpl in Hc. simpl in H0. lra.
  - apply Forall_concat. subst ms.
    rewrite !Forall_fmap in Hms.
    eapply Forall_impl; [exact Hms|]. intros cells Hcells. simpl in Hcells.
    rewrite radius_ratio_scan_folds in Hcells. simpl in Hcells.
    destruct (Q_foldl_std_max_ge (radius_ratio <$> cells) 0) as [_ Hl].
    rewrite Forall_fmap in Hl. eapply Forall_impl; [exact Hl|].
    intros c Hc. simpl in Hc. lra.
Qed.

Lemma radius_ratio_min_attained (mesh : Mesh Q) :
  all_cells mesh ≠ [] →
  Forall (fun c => radius_ratio c <= Q_DBL_MAX) (all_cells mesh) →
  Exists (fun c => radius_ratio c == fst (radius_ratio_min_max mesh)) (all_cells mesh).
Proof.
  intros Hne Hle.
  assert (Hcases : fst (radius_ratio_min_max mesh) = Q_DBL_MAX
                   ∨ Exists (fun c => radius_ratio c == fst (radius_ratio_min_max mesh))
                            (all_cells mesh)).
  { apply (radius_ratio_min_ind
             (fun x => x = Q_DBL_MAX ∨ Exists (fun c => radius_ratio c == x) (all_cells mesh)));
      [by left|].
    apply Forall_forall. intros c Hc. right. apply Exists_exists.
    exists c. split; [done | reflexivity]. }
  destruct Hcases as [Hmax | ?]; [|done].
  pose proof (radius_ratio_min_lower_bound mesh) as Hlow.
  destruct (all_cells mesh) as [|c cells]; [done|].
  left. inversion Hle; subst. inversion Hlow; subst. rewrite Hmax in *. lra.
Qed.

Lemma radius_ratio_max_attained (mesh : Mesh Q) :
  all_cells mesh ≠ [] →
  Forall (fun c => 0 <= radius_ratio c) (all_cells mesh) →
  Exists (fun c => radius_ratio c == snd (radius_ratio_min_max mesh)) (all_cells mesh).
Proof.
  intros Hne Hle.
  assert (Hcases : snd (radius_ratio_min_max mesh) = 0
                   ∨ Exists (fun c => radius_ratio c == snd (radius_ratio_min_max mesh))
                            (all_cells mesh)).
  { apply (radius_ratio_max_ind
             (fun x => x = 0 ∨ Exists (fun c => radius_ratio c == x) (all_cells mesh)));
      [by left|].
    apply Forall_forall. intros c Hc. right. apply Exists_exists.
    exists c. split; [done | reflexivity]. }
  destruct Hcases as [Hmax | ?]; [|done].
  pose proof (radius_ratio_max_upper_bound mesh) as Hup.
  destruct (all_cells mesh) as [|c cells]; [done|].
  left. inversion Hle; subst. inversion Hup; subst. rewrite Hmax in *. lra.
Qed.

End ExactExtrema.

Section ExactExtremaUnique.
Open Scope Q_scope.

Lemma least_unique (l : list Q) (a b : Q) :
  Forall (fun y => a <= y) l → Exists (fun y => y == a) l →
  Forall (fun y => b <= y) l → Exists (fun y => y == b) l → a == b.
Proof.
  rewrite !Forall_forall, !Exists_exists.
  intros Ha [ya [Hya Ea]] Hb [yb [Hyb Eb]].
  pose proof (Ha yb Hyb). pose proof (Hb ya Hya). lra.
Qed.

Lemma greatest_unique (l : list Q) (a b : Q) :
  Forall (fun y => y <= a) l → Exists (fun y => y == a) l →
  Forall (fun y => y <= b) l → Exists (fun y => y == b) l → a == b.
Proof.
  rewrite !Forall_forall, !Exists_exists.
  intros Ha [ya [Hya Ea]] Hb [yb [Hyb Eb]].
  pose proof (Ha yb Hyb). pose proof (Hb ya Hya). lra.
Qed.

End ExactExtremaUnique.

(** C3: [radius_ratio_min_max] scans the local cells and then min-reduces
    and max-reduces over all processes.  In exact arithmetic, on a mesh
    with at least one cell whose radius ratios lie in [0, DBL_MAX], the
    pair it returns is the least and the greatest radius ratio over the
    cells of all processes; on one process this is the direct minimum and
    maximum of the ratios of the cells. *)
Theorem radius_ratio_min_max_global_extrema (mesh : Mesh Q) :
  all_cells mesh ≠ [] →
  Forall (fun c => 0 <= radius_ratio c ∧ radius_ratio c <= Q_DBL_MAX)%Q (all_cells mesh) →
  let lohi := radius_ratio_min_max mesh in
  lohi = (MPI_min (fst (radius_ratio_scan (local_cells mesh)))
                  (fst <$> (radius_ratio_scan <$> remote_cells mesh)),
          MPI_max (snd (radius_ratio_scan (local_cells mesh)))
                  (snd <$> (radius_ratio_scan <$> remote_cells mesh)))
  ∧ Forall (fun c => fst lohi <= radius_ratio c ∧ radius_ratio c <= snd lohi)%Q
           (all_cells mesh)
  ∧ Exists (fun c => radius_ratio c == fst lohi) (all_cells mesh)
  ∧ Exists (fun c => radius_ratio c == snd lohi) (all_cells mesh)
  ∧ (remote_cells mesh = [] →
     ∃ lo hi, direct_min_max (radius_ratio <$> local_cells mesh) = Some (lo, hi)
              ∧ fst lohi == lo ∧ snd lohi == hi).
Proof.
  intros Hne Hrange lohi. subst lohi.
  assert (Hlow := radius_ratio_min_lower_bound mesh).
  assert (Hup := radius_ratio_max_upper_bound mesh).
  assert (Hmin : Exists (fun c => radius_ratio c == fst (radius_ratio_min_max mesh))
                        (all_cells mesh)).
  { apply radius_ratio_min_attained; [done|].
    eapply Forall_impl; [exact Hrange|]. by intros c [_ ?]. }
  assert (Hmax : Exists (fun c => radius_ratio c == snd (radius_ratio_min_max mesh))
                        (all_cells mesh)).
  { apply radius_ratio_max_attained; [done|].
    eapply Forall_impl; [exact Hrange|]. by intros c [? _]. }
  split; [apply radius_ratio_min_max_folds|].
  split; [|split; [done|split; [done|]]].
  { rewrite Forall_forall in Hlow, Hup |- *. intros c Hc. split; auto. }
  intros Hsingle. unfold all_cells in *. rewrite Hsingle in *. simpl in *.
  rewrite app_nil_r in *.
  destruct (local_cells mesh) as [|c cells] eqn:Hcells; [done|].
  simpl. do 2 eexists. split; [reflexivity|].
  destruct (Q_foldl_Qmin_le (radius_ratio <$> cells) (radius_ratio c)) as [Hlo1 Hlo2].
  destruct (Q_foldl_Qmax_ge (radius_ratio <$> cells) (radius_ratio c)) as [Hhi1 Hhi2].
  pose proof (Q_foldl_Qmin_attained (radius_ratio <$> cells) (radius_ratio c)) as Hlo3.
  pose proof (Q_foldl_Qmax_attained (radius_ratio <$> cells) (radius_ratio c)) as Hhi3.
  split.
  - apply (least_unique (radius_ratio <$> (c :: cells))).
    + by rewrite Forall_fmap.
    + rewrite Exists_fmap. exact Hmin.
    + simpl. by constructor.
    + exact Hlo3.
  - apply (greatest_unique (radius_ratio <$> (c :: cells))).
    + by rewrite Forall_fmap.
    + rewrite Exists_fmap. exact Hmax.
    + simpl. by constructor.
    + exact Hhi3.
Qed.

Lemma radius_ratio_min_max_global_extrema_witness :
  let mesh := split_cells Q (1 # 2) (183 # 250) in
  let lohi := radius_ratio_min_max mesh in
  lohi = (MPI_min (fst (radius_ratio_scan (local_cells mesh)))
                  (fst <$> (radius_ratio_scan <$> remote_cells mesh)),
          MPI_max (snd (radius_ratio_scan (local_cells mesh)))
                  (snd <$> (radius_ratio_scan <$> remote_cells mesh)))
  ∧ Forall (fun c => fst lohi <= radius_ratio c ∧ radius_ratio c <= snd lohi)%Q
           (all_cells mesh)
  ∧ Exists (fun c => radius_ratio c == fst lohi) (all_cells mesh)
  ∧ Exists (fun c => radius_ratio c == snd lohi) (all_cells mesh)
  ∧ (remote_cells mesh = [] →
     ∃ lo hi, direct_min_max (radius_ratio <$> local_cells mesh) = Some (lo, hi)
              ∧ fst lohi == lo ∧ snd lohi == hi).
Proof.
  apply radius_ratio_min_max_global_extrema.
  - discriminate.
  - repeat constructor; vm_compute; discriminate.
Defined.

(** ** Exact arithmetic: the histogram loop *)

Section HistogramExact.
Open Scope Q_scope.

Lemma Q_to_size_t_floor (q : Q) :
  0 <= q → q < inject_Z size_t_modulus → Q_to_size_t q = Some (Qfloor q).
Proof.
  intros H0 Hlt. unfold Q_to_size_t.
  assert (Hfl : (Qnum q ÷ Zpos (Qden q))%Z = Qfloor q).
  { destruct q as [a b]. simpl. apply Z.quot_div_nonneg; [|done].
    unfold Qle in H0. simpl in H0. lia. }
  rewrite Hfl.
  assert (0 <= Qfloor q)%Z.
  { rewrite <- (Qfloor_Z 0). by apply Qfloor_resp_le. }
  assert (Qfloor q < size_t_modulus)%Z.
  { apply Z.lt_nge. intros Hge. rewrite Zle_Qle in Hge.
    pose proof (Qfloor_le q). lra. }
  rewrite (proj2 (Z.leb_le _ _)), (proj2 (Z.ltb_lt _ _)); done.
Qed.

Lemma size_t_sub_one (n : Z) : (1 <= n < size_t_modulus)%Z → size_t_sub n 1 = (n - 1)%Z.
Proof. intros Hn. unfold size_t_sub. apply Z.mod_small. lia. Qed.

Variables (w : Q) (n : Z).
Hypothesis Hw : 0 < w.
Hypothesis Hn : (1 <= n < size_t_modulus)%Z.

Lemma quotient_bounds (x : Q) : 0 <= x → x <= inject_Z n * w → 0 <= x / w ∧ x / w <= inject_Z n.
Proof.
  intros H0 H1. split.
  - apply Qle_shift_div_l; [done|]. lra.
  - apply Qle_shift_div_r; [done|]. lra.
Qed.

Lemma bin_index_range (x : Q) : 0 <= x → (0 <= bin_index w n x < n)%Z.
Proof.
  intros H0. unfold bin_index.
  assert (0 <= Qfloor (x / w))%Z.
  { rewrite <- (Qfloor_Z 0). apply Qfloor_resp_le.
    apply Qle_shift_div_l; [done|]. change (inject_Z 0) with 0. lra. }
  lia.
Qed.

Lemma bin_slot_exact (x : Q) :
  0 <= x → x <= inject_Z n * w → bin_slot w n x = Returns (bin_index w n x).
Proof.
  intros H0 H1. destruct (quotient_bounds x H0 H1) as [Hq0 Hq1].
  unfold bin_slot. simpl.
  rewrite Q_to_size_t_floor; [|done|].
  - by rewrite size_t_sub_one.
  - destruct Hn as [_ Hn']. rewrite Zlt_Qlt in Hn'. lra.
Qed.

Lemma bin_count_exact (vs : list Q) (x : Q) :
  0 <= x → x <= inject_Z n * w →
  bin_count w n vs x = bin_increment vs (bin_index w n x).
Proof.
  intros H0 H1. unfold bin_count. by rewrite (bin_slot_exact x H0 H1).
Qed.

Lemma bin_index_top (x : Q) : x == inject_Z n * w → bin_index w n x = (n - 1)%Z.
Proof.
  intros Hx. unfold bin_index.
  assert (Hq : x / w == inject_Z n).
  { rewrite Hx. field. lra. }
  rewrite Hq, Qfloor_Z. lia.
Qed.

Lemma Qsum_insert (vs : list Q) (i : nat) (v x : Q) :
  vs !! i = Some v → Qsum (<[i := x]> vs) == Qsum vs - v + x.
Proof.
  revert i. induction vs as [|y vs IH]; intros i Hi; [done|].
  destruct i as [|i]; simpl in *.
  - injection Hi as ->. lra.
  - rewrite (IH i Hi). lra.
Qed.

Lemma counts_replicate_zero (k : nat) : counts (replicate k 0) (fun _ => 0%Z).
Proof.
  intros j v Hj. apply lookup_replicate in Hj as [-> _]. reflexivity.
Qed.

Lemma counts_ext (vs : list Q) (f g : nat → Z) :
  (∀ j, f j = g j) → counts vs f → counts vs g.
Proof. intros Hfg Hf j v Hj. rewrite <- Hfg. by apply Hf. Qed.

Lemma tally_cons (x : Q) (xs : list Q) (j : nat) :
  tally w n (x :: xs) j
  = ((if decide (bin_index w n x = Z.of_nat j) then 1 else 0) + tally w n xs j)%Z.
Proof.
  unfold tally. rewrite filter_cons. case_decide; simpl; lia.
Qed.

Lemma tally_app (xs ys : list Q) (j : nat) :
  tally w n (xs ++ ys) j = (tally w n xs j + tally w n ys j)%Z.
Proof. unfold tally. rewrite filter_app, length_app. lia. Qed.

(** One increment: the entry of the slot grows by one, the others stay,
    and so the sum of the entries grows by one. *)
Lemma bin_increment_counts (vs : list Q) (f : nat → Z) (slot : Z) :
  length vs = Z.to_nat n → counts vs f → (0 <= slot < n)%Z →
  ∃ vs', bin_increment vs slot = Returns vs'
         ∧ length vs' = Z.to_nat n
         ∧ counts vs' (fun j => (f j + if decide (slot = Z.of_nat j) then 1 else 0)%Z)
         ∧ Qsum vs' == Qsum vs + 1.
Proof.
  intros Hlen Hf Hslot. unfold bin_increment.
  destruct (lookup_lt_is_Some_2 vs (Z.to_nat slot)) as [v Hv]; [lia|].
  rewrite Hv. eexists. split; [reflexivity|].
  split; [by rewrite length_insert|]. split.
  - intros j u Hj. destruct (decide (Z.to_nat slot = j)) as [<- | Hne].
    + rewrite list_lookup_insert_eq in Hj by (by eapply lookup_lt_Some).
      injection Hj as <-. simpl.
      rewrite (Hf _ _ Hv). rewrite decide_True by lia.
      rewrite inject_Z_plus. reflexivity.
    + rewrite list_lookup_insert_ne in Hj by done.
      rewrite (Hf _ _ Hj). rewrite decide_False by lia.
      by rewrite Z.add_0_r.
  - rewrite (Qsum_insert _ _ _ _ Hv). simpl. lra.
Qed.

(** The loop over the samples [xs], started on counts [f]: it returns,
    entry [j] has grown by the number of samples whose bin index is [j],
    and the sum of the entries by the number of samples. *)
Lemma histogram_loop (xs : list Q) :
  ∀ (vs : list Q) (f : nat → Z),
    length vs = Z.to_nat n → counts vs f →
    Forall (fun x => 0 <= x ∧ x <= inject_Z n * w) xs →
    ∃ vs', for_each (bin_count w n) xs vs = Returns vs'
           ∧ length vs' = Z.to_nat n
           ∧ counts vs' (fun j => (f j + tally w n xs j)%Z)
           ∧ Qsum vs' == Qsum vs + inject_Z (Z.of_nat (length xs)).
Proof.
  induction xs as [|x xs IH]; intros vs f Hlen Hf Hxs.
  - exists vs. simpl. split; [done|]. split; [done|]. split.
    + eapply counts_ext; [|exact Hf]. intros j. unfold tally. simpl. lia.
    + change (inject_Z (Z.of_nat 0)) with 0. lra.
  - inversion Hxs as [|? ? [Hx0 Hx1] Hxs']; subst.
    simpl for_each. rewrite (bin_count_exact vs x Hx0 Hx1).
    destruct (bin_increment_counts vs f (bin_index w n x) Hlen Hf
                (bin_index_range x Hx0)) as (vs1 & -> & Hlen1 & Hf1 & Hsum1).
    simpl.
    destruct (IH vs1 _ Hlen1 Hf1 Hxs') as (vs' & Hrun & Hlen' & Hf' & Hsum').
    exists vs'. split; [exact Hrun|]. split; [done|]. split.
    + eapply counts_ext; [|exact Hf']. intros j. simpl. rewrite tally_cons. lia.
    + rewrite Hsum', Hsum1. simpl length.
      rewrite Nat2Z.inj_succ, <- Z.add_1_r, inject_Z_plus.
      change (inject_Z 1) with 1. lra.
Qed.

End HistogramExact.

(** ** Exact arithmetic: sums of counts *)

Lemma Zsum_from_ext (f g : nat → Z) (s m : nat) :
  (∀ j, f j = g j) → Zsum_from f s m = Zsum_from g s m.
Proof.
  intros Hfg. unfold Zsum_from. f_equal. apply list_fmap_ext. auto.
Qed.

Lemma Zsum_from_zero (f : nat → Z) (s m : nat) :
  (∀ j, f j = 0%Z) → Zsum_from f s m = 0%Z.
Proof.
  intros Hf. unfold Zsum_from.
  induction (seq s m) as [|j l IH]; cbn; [done|]. rewrite IH, Hf. done.
Qed.

Lemma Zsum_from_S (f : nat → Z) (s m : nat) :
  Zsum_from f s (S m) = (f s + Zsum_from f (S s) m)%Z.
Proof. reflexivity. Qed.

Lemma Zsum_from_add (f g : nat → Z) (s m : nat) :
  Zsum_from (fun j => (f j + g j)%Z) s m = (Zsum_from f s m + Zsum_from g s m)%Z.
Proof.
  unfold Zsum_from. revert s. induction m as [|m IH]; intros s; cbn; [done|].
  rewrite IH. lia.
Qed.

Lemma Zsum_from_shift (f : nat → Z) (s m : nat) :
  Zsum_from f (S s) m = Zsum_from (fun j => f (S j)) s m.
Proof.
  unfold Zsum_from. by rewrite <- fmap_S_seq, <- list_fmap_compose.
Qed.

(** Exactly one index of a range hits a given slot of the range. *)
Lemma Zsum_from_indicator (k : Z) (s m : nat) :
  Zsum_from (fun j => if decide (k = Z.of_nat j) then 1 else 0)%Z s m
  = (if decide (Z.of_nat s <= k < Z.of_nat (s + m))%Z then 1 else 0)%Z.
Proof.
  unfold Zsum_from. revert s. induction m as [|m IH]; intros s; cbn.
  - rewrite decide_False by lia. done.
  - rewrite IH. repeat case_decide; lia.
Qed.

Section HistogramTotals.
Open Scope Q_scope.
Variables (w : Q) (n : Z).

(** The bins partition the samples: the tallies add up to their number. *)
Lemma tally_total (xs : list Q) (m : nat) :
  Forall (fun x => (0 <= bin_index w n x < Z.of_nat m)%Z) xs →
  Zsum_from (tally w n xs) 0 m = Z.of_nat (length xs).
Proof.
  induction 1 as [|x xs Hx _ IH].
  - by apply Zsum_from_zero.
  - rewrite (Zsum_from_ext _ _ 0 m (tally_cons w n x xs)).
    rewrite Zsum_from_add, IH, Zsum_from_indicator.
    rewrite decide_True by lia. simpl length. lia.
Qed.

Lemma Qsum_counts (vs : list Q) (f : nat → Z) :
  counts vs f → Qsum vs == inject_Z (Zsum_from f 0 (length vs)).
Proof.
  revert f. induction vs as [|y vs IH]; intros f Hf; [reflexivity|].
  simpl length. rewrite Zsum_from_S, Zsum_from_shift, inject_Z_plus.
  change (Qsum (y :: vs)) with (y + Qsum vs).
  rewrite <- (IH (fun j => f (S j))).
  - rewrite (Hf 0%nat y eq_refl). reflexivity.
  - intros j v Hj. by apply (Hf (S j)).
Qed.

Lemma foldl_Qplus (l : list Q) (a : Q) : foldl Qplus a l == a + Qsum l.
Proof.
  revert a. induction l as [|y l IH]; intros a; simpl; [lra|].
  rewrite IH. lra.
Qed.

(** Column [j] of the vectors of the other processes adds up to the tally
    of their samples. *)
Lemma column_tally (remote : list (list Q)) (xss : list (list Q)) (j : nat) :
  Forall2 (fun r xs => (j < length r)%nat ∧ counts r (tally w n xs)) remote xss →
  Qsum ((fun vs => default 0 (vs !! j)) <$> remote)
  == inject_Z (tally w n (concat xss) j).
Proof.
  induction 1 as [|r xs remote xss [Hlen Hr] _ IH]; simpl.
  - reflexivity.
  - rewrite tally_app, inject_Z_plus, IH.
    destruct (lookup_lt_is_Some_2 r j Hlen) as [v Hv]. rewrite Hv. simpl.
    rewrite (Hr j v Hv). reflexivity.
Qed.

(** After the sum-reduction entry [j] counts the samples of all
    processes. *)
Lemma sum_reduce_counts (values : list Q) (xs : list Q)
    (remote : list (list Q)) (xss : list (list Q)) :
  counts values (tally w n xs) →
  Forall2 (fun r xs' => length r = length values ∧ counts r (tally w n xs'))
          remote xss →
  counts (sum_reduce values remote) (tally w n (xs ++ concat xss)).
Proof.
  intros Hv Hr j u Hj. unfold sum_reduce in Hj.
  rewrite list_lookup_imap in Hj.
  destruct (values !! j) as [v|] eqn:Hvj; [|done]. simpl in Hj.
  injection Hj as <-. unfold MPI_sum. simpl.
  rewrite foldl_Qplus, tally_app, inject_Z_plus, (Hv j v Hvj).
  rewrite (column_tally remote xss j); [reflexivity|].
  eapply Forall2_impl; [exact Hr|]. intros r xs' [Hlen Hc]. split; [|done].
  rewrite Hlen. by eapply lookup_lt_Some.
Qed.

End HistogramTotals.

(** ** Exact arithmetic: the radius ratio histogram *)

Lemma for_each_fmap {A B S : Type} (g : A → B) (body : S → B → outcome S)
    (l : list A) (s : S) :
  for_each (fun s a => body s (g a)) l s = for_each body (g <$> l) s.
Proof.
  revert s. induction l as [|a l IH]; intros s; simpl; [done|].
  destruct (body s (g a)); simpl; auto.
Qed.

Lemma mapM_Returns {A B : Type} (f : A → outcome B) (P : B → A → Prop) (l : list A) :
  Forall (fun a => ∃ b, f a = Returns b ∧ P b a) l →
  ∃ bs, mapM f l = Returns bs ∧ Forall2 P bs l.
Proof.
  induction 1 as [|a l (b & Hb & HP) _ (bs & Hbs & HPs)]; simpl.
  - exists []. split; [done | constructor].
  - exists (b :: bs). rewrite Hb. simpl. rewrite Hbs. simpl.
    split; [done | by constructor].
Qed.

Lemma Forall2_left {A B : Type} (R : B → A → Prop) (P : B → Prop)
    (bs : list B) (l : list A) :
  Forall2 R bs l → (∀ b a, R b a → P b) → Forall P bs.
Proof. induction 1; intros HRP; constructor; eauto. Qed.

Lemma fmap_concat {A B : Type} (f : A → B) (ls : list (list A)) :
  f <$> concat ls = concat ((fun l : list A => f <$> l) <$> ls).
Proof.
  induction ls as [|l ls IH]; simpl; [done|]. by rewrite fmap_app, IH.
Qed.

Section RadiusRatioHistogram.
Open Scope Q_scope.
Variable n : Z.
Hypothesis Hn : (1 <= n < size_t_modulus)%Z.

Let w : Q := 1 / inject_Z n.

Lemma unit_interval_positive : 0 < w.
Proof.
  subst w. destruct Hn as [Hn1 _]. rewrite Zle_Qle in Hn1.
  change (inject_Z 1) with 1 in Hn1.
  apply Qlt_shift_div_l; lra.
Qed.

Lemma unit_interval_covers : inject_Z n * w == 1.
Proof.
  subst w. destruct Hn as [Hn1 _]. rewrite Zle_Qle in Hn1.
  change (inject_Z 1) with 1 in Hn1. field. lra.
Qed.

Lemma radius_ratio_local_histogram_exact (cells : list (Cell Q)) :
  Forall (fun c => 0 <= radius_ratio c ∧ radius_ratio c <= 1) cells →
  ∃ vs, radius_ratio_local_histogram w n cells = Returns vs
        ∧ length vs = Z.to_nat n
        ∧ counts vs (tally w n (radius_ratio <$> cells)).
Proof.
  intros Hcells. unfold radius_ratio_local_histogram.
  rewrite (for_each_fmap radius_ratio (bin_count w n)).
  destruct (histogram_loop w n unit_interval_positive Hn (radius_ratio <$> cells)
              (replicate (Z.to_nat n) 0) (fun _ => 0%Z))
    as (vs & Hrun & Hlen & Hcounts & _).
  - apply length_replicate.
  - apply counts_replicate_zero.
  - rewrite Forall_fmap. eapply Forall_impl; [exact Hcells|].
    intros c [H0 H1]. simpl. rewrite unit_interval_covers. done.
  - exists vs. split; [exact Hrun|]. split; [done|].
    eapply counts_ext; [|exact Hcounts]. intros j. simpl. lia.
Qed.

(** The call returns: the assertion holds, no conversion or index is out
    of range on any process, and the values are the sum-reduction of the
    per-process counts. *)
Lemma radius_ratio_histogram_data_exact (mesh : Mesh Q) :
  Forall (fun c => 0 <= radius_ratio c ∧ radius_ratio c <= 1) (all_cells mesh) →
  ∃ values remote,
    radius_ratio_histogram_data mesh n
    = Returns (bin_centers w n, sum_reduce values remote)
    ∧ radius_ratio_local_histogram w n (local_cells mesh) = Returns values
    ∧ mapM (radius_ratio_local_histogram w n) (remote_cells mesh) = Returns remote
    ∧ length values = Z.to_nat n
    ∧ counts values (tally w n (radius_ratio <$> local_cells mesh))
    ∧ Forall2 (fun r cells => length r = Z.to_nat n
                              ∧ counts r (tally w n (radius_ratio <$> cells)))
              remote (remote_cells mesh).
Proof.
  intros Hall.
  assert (Hassert : dleb (snd (radius_ratio_min_max mesh)) d_one = true).
  { apply (radius_ratio_max_ind (fun x => Qle_bool x 1 = true)); [done|].
    eapply Forall_impl; [exact Hall|]. intros c [_ H1]. by apply Qle_bool_iff. }
  unfold all_cells in Hall. apply Forall_app in Hall as [Hlocal Hremote].
  rewrite Forall_concat in Hremote.
  destruct (radius_ratio_local_histogram_exact _ Hlocal) as (values & Hv & Hlen & Hc).
  destruct (mapM_Returns (radius_ratio_local_histogram w n)
              (fun r cells => length r = Z.to_nat n
                              ∧ counts r (tally w n (radius_ratio <$> cells)))
              (remote_cells mesh)) as (remote & Hr & Hrs).
  { eapply Forall_impl; [exact Hremote|]. intros cells Hcells.
    destruct (radius_ratio_local_histogram_exact _ Hcells) as (vs & ? & ? & ?).
    by exists vs. }
  exists values, remote. split; [|done].
  unfold radius_ratio_histogram_data. rewrite Hassert. simpl.
  change (1 / inject_Z n) with w. rewrite Hv. simpl. rewrite Hr. reflexivity.
Qed.

(** Entry [j] of the returned values counts the cells of all processes
    whose bin index is [j]. *)
Lemma radius_ratio_histogram_counts (mesh : Mesh Q) (values : list Q)
    (remote : list (list Q)) :
  length values = Z.to_nat n →
  counts values (tally w n (radius_ratio <$> local_cells mesh)) →
  Forall2 (fun r cells => length r = Z.to_nat n
                          ∧ counts r (tally w n (radius_ratio <$> cells)))
          remote (remote_cells mesh) →
  counts (sum_reduce values remote) (tally w n (radius_ratio <$> all_cells mesh)).
Proof.
  intros Hlen Hc Hrs. unfold all_cells. rewrite fmap_app, fmap_concat.
  apply sum_reduce_counts; [done|].
  apply Forall2_fmap_r. eapply Forall2_impl; [exact Hrs|].
  intros r cells [Hr1 Hr2]. split; [congruence | done].
Qed.

End RadiusRatioHistogram.

Section RadiusRatioTotals.
Open Scope Q_scope.

Lemma bin_index_in_vector (w : Q) (n : Z) (xs : list Q) :
  0 < w → (1 <= n < size_t_modulus)%Z → Forall (fun x => 0 <= x) xs →
  Forall (fun x => (0 <= bin_index w n x < Z.of_nat (Z.to_nat n))%Z) xs.
Proof.
  intros Hw Hn Hxs. eapply Forall_impl; [exact Hxs|]. intros x Hx. simpl.
  pose proof (bin_index_range w n Hw Hn x Hx). lia.
Qed.

(** A vector of [n] counts of samples adds up to the number of samples. *)
Lemma Qsum_tally (w : Q) (n : Z) (vs : list Q) (xs : list Q) :
  0 < w → (1 <= n < size_t_modulus)%Z →
  length vs = Z.to_nat n → counts vs (tally w n xs) →
  Forall (fun x => 0 <= x) xs →
  Qsum vs == inject_Z (Z.of_nat (length xs)).
Proof.
  intros Hw Hn Hlen Hc Hxs. rewrite (Qsum_counts vs _ Hc), Hlen.
  rewrite (tally_total w n xs); [reflexivity|]. by apply bin_index_in_vector.
Qed.

Lemma bin_centers_lookup (w : Q) (n : Z) (i : nat) (b : Q) :
  bin_centers w n !! i = Some b →
  (Z.of_nat i < n)%Z ∧ b == (inject_Z (Z.of_nat i) + 1 / 2) * w.
Proof.
  unfold bin_centers. rewrite list_lookup_fmap.
  destruct (seqZ 0 n !! i) as [k|] eqn:Hk; [|done]. simpl.
  apply lookup_seqZ in Hk as [-> Hi]. intros [= <-]. split; [done|].
  rewrite Z.add_0_l. unfold dadd, dmul, ddiv, d_two, of_size_t, ExactQ. field.
Qed.

End RadiusRatioTotals.

(** The returned values add up to the number of cells of all processes. *)
Lemma radius_ratio_values_total (mesh : Mesh Q) (n : Z) (values : list Q)
    (remote : list (list Q)) :
  (1 <= n < size_t_modulus)%Z →
  Forall (fun c => 0 <= radius_ratio c ∧ radius_ratio c <= 1)%Q (all_cells mesh) →
  length values = Z.to_nat n →
  counts values (tally (1 / inject_Z n) n (radius_ratio <$> local_cells mesh)) →
  Forall2 (fun r cells => length r = Z.to_nat n
                          ∧ counts r (tally (1 / inject_Z n) n (radius_ratio <$> cells)))
          remote (remote_cells mesh) →
  Qsum (sum_reduce values remote) == inject_Z (Z.of_nat (length (all_cells mesh))).
Proof.
  intros Hn Hall Hlen Hc Hrs.
  rewrite (Qsum_tally (1 / inject_Z n) n (sum_reduce values remote)
             (radius_ratio <$> all_cells mesh) (unit_interval_positive n Hn) Hn).
  - by rewrite length_fmap.
  - by rewrite length_sum_reduce.
  - apply (radius_ratio_histogram_counts n mesh values remote Hlen Hc Hrs).
  - rewrite Forall_fmap. eapply Forall_impl; [exact Hall|]. by intros c [? _].
Qed.







(** ** The dihedral angle scan and histogram *)

Section DihedralLoops.
Context {D : Type} `{Double D} `{Libm D}.

Lemma dihedral_angles_3d (cell : Cell D) (angs : list D) :
  cell_dim cell = 3%nat → dihedral_angles cell angs = (Returns tt, cell_angles cell).
Proof.
  intros Hdim. unfold dihedral_angles. rewrite Hdim. simpl negb. cbv iota.
  by rewrite fill_six.
Qed.

Lemma cell_angles_nonempty (cell : Cell D) : cell_angles cell ≠ [].
Proof. discriminate. Qed.

Lemma angles_of_app (cells1 cells2 : list (Cell D)) :
  angles_of (cells1 ++ cells2) = angles_of cells1 ++ angles_of cells2.
Proof. unfold angles_of. by rewrite fmap_app, concat_app. Qed.

Lemma angles_of_concat (cellss : list (list (Cell D))) :
  angles_of (concat cellss) = concat (angles_of <$> cellss).
Proof.
  induction cellss as [|cells cellss IH]; simpl; [done|].
  by rewrite angles_of_app, IH.
Qed.

Lemma Forall_angles_of (P : D → Prop) (cells : list (Cell D)) :
  Forall P (angles_of cells) ↔ Forall (fun c => Forall P (cell_angles c)) cells.
Proof. unfold angles_of. by rewrite Forall_concat, Forall_fmap. Qed.

(** [min_element] and [max_element] return an entry of the range. *)
Lemma min_element_ind (P : D → Prop) (l : list D) :
  l ≠ [] → Forall P l → ∃ x, min_element l = Returns x ∧ P x.
Proof.
  destruct l as [|x l]; [done|]. intros _ Hl. inversion Hl as [|? ? Hx Hl']; subst.
  eexists. split; [reflexivity|].
  clear Hl. revert x Hx. induction Hl' as [|y l Hy _ IH]; intros x Hx; simpl; [done|].
  apply IH. by destruct (dltb y x).
Qed.

Lemma max_element_ind (P : D → Prop) (l : list D) :
  l ≠ [] → Forall P l → ∃ x, max_element l = Returns x ∧ P x.
Proof.
  destruct l as [|x l]; [done|]. intros _ Hl. inversion Hl as [|? ? Hx Hl']; subst.
  eexists. split; [reflexivity|].
  clear Hl. revert x Hx. induction Hl' as [|y l Hy _ IH]; intros x Hx; simpl; [done|].
  apply IH. by destruct (dltb x y).
Qed.

(** On cells of dimension 3 the scan returns; a property of the start
    value that every angle has is a property of the extreme found. *)
Lemma dihedral_angles_scan_ind (P Q : D → Prop) (cells : list (Cell D)) :
  P (dadd d_pi d_one) → Q (dopp d_one) →
  Forall (fun c => cell_dim c = 3%nat) cells →
  Forall P (angles_of cells) → Forall Q (angles_of cells) →
  ∃ lo hi, dihedral_angles_scan cells = Returns (lo, hi) ∧ P lo ∧ Q hi.
Proof.
  unfold dihedral_angles_scan.
  generalize (replicate 6 d_zero) (dadd d_pi d_one) (dopp d_one).
  induction cells as [|c cells IH]; intros angs lo hi Hlo Hhi Hdim HP HQ.
  - exists lo, hi. by simpl.
  - inversion Hdim as [|? ? Hc Hdim']; subst.
    rewrite Forall_angles_of in HP, HQ.
    inversion HP as [|? ? HPc HP']; subst. inversion HQ as [|? ? HQc HQ']; subst.
    rewrite <- Forall_angles_of in HP', HQ'.
    destruct (min_element_ind P (cell_angles c)) as (a & Hmin & Ha);
      [apply cell_angles_nonempty | done |].
    destruct (max_element_ind Q (cell_angles c)) as (b & Hmax & Hb);
      [apply cell_angles_nonempty | done |].
    simpl for_each. rewrite (dihedral_angles_3d c angs Hc), Hmin, Hmax. simpl.
    apply IH; try done.
    + by destruct (std_min_cases lo a) as [-> | ->].
    + by destruct (std_max_cases hi b) as [-> | ->].
Qed.

Lemma dihedral_angles_min_max_ind (P Q : D → Prop) (mesh : Mesh D) :
  P (dadd d_pi d_one) → Q (dopp d_one) →
  Forall (fun c => cell_dim c = 3%nat) (all_cells mesh) →
  Forall P (all_angles mesh) → Forall Q (all_angles mesh) →
  ∃ lo hi, dihedral_angles_min_max mesh = Returns (lo, hi) ∧ P lo ∧ Q hi.
Proof.
  intros HP0 HQ0 Hdim HP HQ. unfold all_angles, all_cells in *.
  rewrite angles_of_app, angles_of_concat in HP, HQ.
  apply Forall_app in Hdim as [Hdl Hdr]. rewrite Forall_concat in Hdr.
  apply Forall_app in HP as [HPl HPr]. rewrite Forall_concat, Forall_fmap in HPr.
  apply Forall_app in HQ as [HQl HQr]. rewrite Forall_concat, Forall_fmap in HQr.
  destruct (dihedral_angles_scan_ind P Q (local_cells mesh)) as (lo & hi & Hrun & Hlo & Hhi);
    try done.
  destruct (mapM_Returns dihedral_angles_scan (fun lohi _ => P (fst lohi) ∧ Q (snd lohi))
              (remote_cells mesh)) as (remote & Hr & Hrs).
  { apply Forall_forall. intros cells Hin.
    rewrite Forall_forall in Hdr, HPr, HQr.
    destruct (dihedral_angles_scan_ind P Q cells) as (lo' & hi' & ? & ? & ?); auto.
    - by apply HPr.
    - by apply HQr.
    - by exists (lo', hi'). }
  unfold dihedral_angles_min_max. rewrite Hrun. simpl. rewrite Hr. simpl.
  eexists _, _. split; [reflexivity|]. unfold MPI_min, MPI_max. split.
  - apply foldl_std_min_ind; [done|]. apply Forall_fmap.
    apply (Forall2_left _ _ _ _ Hrs). by intros lohi _ [? _].
  - apply foldl_std_max_ind; [done|]. apply Forall_fmap.
    apply (Forall2_left _ _ _ _ Hrs). by intros lohi _ [_ ?].
Qed.

(** On cells of dimension 3 the per-process histogram loop is the loop
    over the angles of the cells, cell by cell. *)
Lemma dihedral_angles_local_histogram_angles (interval : D) (num_bins : Z)
    (cells : list (Cell D)) :
  Forall (fun c => cell_dim c = 3%nat) cells →
  dihedral_angles_local_histogram interval num_bins cells
  = for_each (bin_count interval num_bins) (angles_of cells)
             (replicate (Z.to_nat num_bins) d_zero).
Proof.
  unfold dihedral_angles_local_histogram.
  generalize (replicate 6 d_zero) (replicate (Z.to_nat num_bins) d_zero).
  induction cells as [|c cells IH]; intros angs values Hdim; [done|].
  inversion Hdim as [|? ? Hc Hdim']; subst.
  change (angles_of (c :: cells)) with (cell_angles c ++ angles_of cells).
  rewrite for_each_app, for_each_cons. cbv beta iota.
  rewrite (dihedral_angles_3d c angs Hc). cbv beta iota.
  destruct (for_each (bin_count interval num_bins) (cell_angles c) values) as [values'| | |];
    try reflexivity.
  apply (IH (cell_angles c) values' Hdim').
Qed.

End DihedralLoops.

(** ** Exact arithmetic: the dihedral angle histogram *)

Section DihedralHistogram.
Open Scope Q_scope.
Context {libm : Libm Q}.
Variable n : Z.
Hypothesis Hn : (1 <= n < size_t_modulus)%Z.

Let w : Q := Q_M_PI / inject_Z n.

Lemma pi_interval_positive : 0 < w.
Proof.
  subst w. destruct Hn as [Hn1 _]. rewrite Zle_Qle in Hn1.
  change (inject_Z 1) with 1 in Hn1.
  apply Qlt_shift_div_l; [lra|]. rewrite Qmult_0_l. reflexivity.
Qed.

Lemma pi_interval_covers : inject_Z n * w == Q_M_PI.
Proof.
  subst w. destruct Hn as [Hn1 _]. rewrite Zle_Qle in Hn1.
  change (inject_Z 1) with 1 in Hn1. field. lra.
Qed.

Lemma dihedral_angles_local_histogram_exact (cells : list (Cell Q)) :
  Forall (fun c => cell_dim c = 3%nat) cells →
  Forall (fun a => 0 <= a ∧ a <= Q_M_PI) (angles_of cells) →
  ∃ vs, dihedral_angles_local_histogram w n cells = Returns vs
        ∧ length vs = Z.to_nat n
        ∧ counts vs (tally w n (angles_of cells)).
Proof.
  intros Hdim Hangles.
  rewrite (dihedral_angles_local_histogram_angles w n cells Hdim).
  destruct (histogram_loop w n pi_interval_positive Hn (angles_of cells)
              (replicate (Z.to_nat n) 0) (fun _ => 0%Z))
    as (vs & Hrun & Hlen & Hcounts & _).
  - apply length_replicate.
  - apply counts_replicate_zero.
  - eapply Forall_impl; [exact Hangles|].
    intros a [H0 H1]. simpl. rewrite pi_interval_covers. done.
  - exists vs. split; [exact Hrun|]. split; [done|].
    eapply counts_ext; [|exact Hcounts]. intros j. simpl. lia.
Qed.

(** The call returns: the two assertions hold, no conversion or index is
    out of range on any process, and the values are the sum-reduction of
    the per-process counts. *)
Lemma dihedral_angles_histogram_data_exact (mesh : Mesh Q) :
  Forall (fun c => cell_dim c = 3%nat) (all_cells mesh) →
  Forall (fun a => 0 <= a ∧ a <= Q_M_PI) (all_angles mesh) →
  ∃ values remote,
    dihedral_angles_histogram_data mesh n
    = Returns (bin_centers w n, sum_reduce values remote)
    ∧ dihedral_angles_local_histogram w n (local_cells mesh) = Returns values
    ∧ mapM (dihedral_angles_local_histogram w n) (remote_cells mesh) = Returns remote
    ∧ length values = Z.to_nat n
    ∧ counts values (tally w n (angles_of (local_cells mesh)))
    ∧ Forall2 (fun r cells => length r = Z.to_nat n
                              ∧ counts r (tally w n (angles_of cells)))
              remote (remote_cells mesh).
Proof.
  intros Hdim Hall.
  destruct (dihedral_angles_min_max_ind
              (fun x => Qle_bool 0 x = true) (fun x => Qle_bool x Q_M_PI = true) mesh)
    as (lo & hi & Hminmax & Hlo & Hhi); try done.
  { eapply Forall_impl; [exact Hall|]. intros a [H0 _]. by apply Qle_bool_iff. }
  { eapply Forall_impl; [exact Hall|]. intros a [_ H1]. by apply Qle_bool_iff. }
  unfold all_angles, all_cells in *. rewrite angles_of_app, angles_of_concat in Hall.
  apply Forall_app in Hdim as [Hdl Hdr]. rewrite Forall_concat in Hdr.
  apply Forall_app in Hall as [Hal Har]. rewrite Forall_concat, Forall_fmap in Har.
  destruct (dihedral_angles_local_histogram_exact _ Hdl Hal) as (values & Hv & Hlen & Hc).
  destruct (mapM_Returns (dihedral_angles_local_histogram w n)
              (fun r cells => length r = Z.to_nat n
                              ∧ counts r (tally w n (angles_of cells)))
              (remote_cells mesh)) as (remote & Hr & Hrs).
  { apply Forall_forall. intros cells Hin. rewrite Forall_forall in Hdr, Har.
    destruct (dihedral_angles_local_histogram_exact cells) as (vs & ? & ? & ?); auto.
    - by apply Har.
    - by exists vs. }
  exists values, remote. split; [|done].
  unfold dihedral_angles_histogram_data. rewrite Hminmax. simpl.
  simpl in Hlo, Hhi. rewrite Hlo. simpl. rewrite Hhi. simpl.
  change (Q_M_PI / inject_Z n) with w. rewrite Hv. simpl. rewrite Hr. reflexivity.
Qed.

Lemma dihedral_angles_histogram_counts (mesh : Mesh Q) (values : list Q)
    (remote : list (list Q)) :
  length values = Z.to_nat n →
  counts values (tally w n (angles_of (local_cells mesh))) →
  Forall2 (fun r cells => length r = Z.to_nat n
                          ∧ counts r (tally w n (angles_of cells)))
          remote (remote_cells mesh) →
  counts (sum_reduce values remote) (tally w n (all_angles mesh)).
Proof.
  intros Hlen Hc Hrs. unfold all_angles, all_cells.
  rewrite angles_of_app, angles_of_concat.
  apply sum_reduce_counts; [done|].
  apply Forall2_fmap_r. eapply Forall2_impl; [exact Hrs|].
  intros r cells [Hr1 Hr2]. split; [congruence | done].
Qed.

End DihedralHistogram.



(** ** Resizing a distributed vector *)



(** ** Binary64: evaluation at concrete inputs *)

Lemma check_slot_sound (interval x : float) (n : Z) :
  match bin_slot interval n x with
  | Returns s => (s =? n - 1)%Z
  | _ => false
  end = true →
  bin_slot interval n x = Returns (n - 1)%Z.
Proof.
  destruct (bin_slot interval n x) as [s| | |]; try discriminate.
  intros Hs. apply Z.eqb_eq in Hs. by subst.
Qed.

(** A conversion to [size_t] that is defined gives a [size_t]. *)
Lemma f64_to_size_t_range (x : float) (t : Z) :
  f64_to_size_t x = Some t → (0 <= t < size_t_modulus)%Z.
Proof.
  unfold f64_to_size_t, size_t_modulus.
  destruct (Prim2SF x) as [s | s | | s m e]; try discriminate.
  - intros [= <-]. lia.
  - set (u := (if (0 <=? e)%Z then Z.pos m * 2 ^ e else Z.pos m / 2 ^ (- e))%Z).
    assert (0 <= u)%Z.
    { subst u. destruct (Z.leb_spec 0 e).
      - apply Z.mul_nonneg_nonneg; [lia|]. by apply Z.pow_nonneg.
      - apply Z.div_pos; [lia|]. apply Z.pow_pos_nonneg; lia. }
    destruct s.
    + destruct (u =? 0)%Z; [|discriminate]. intros [= <-]. lia.
    + destruct (Z.ltb_spec u (2 ^ 64)); [|discriminate]. intros [= <-]. lia.
Qed.

(** On binary64, whatever the ratio and the interval: when the slot is
    defined it is an index of the [n] bins. *)
Lemma binary64_slot_in_range (interval x : float) (n s : Z) :
  (1 <= n < size_t_modulus)%Z →
  bin_slot interval n x = Returns s → (0 <= s <= n - 1)%Z.
Proof.
  intros Hn. unfold bin_slot. simpl.
  destruct (f64_to_size_t (x / interval)) as [t|] eqn:Ht; [|discriminate].
  apply f64_to_size_t_range in Ht. intros [= <-].
  unfold size_t_sub. rewrite Z.mod_small by lia. lia.
Qed.

(** With binary64 rounding a ratio of 1.0 goes to the last of [n] bins,
    for every [n] up to 1024. *)
Lemma binary64_ratio_one_last_bin (n : Z) :
  (1 <= n <= 1024)%Z →
  bin_slot (D := float) (ddiv d_one (of_size_t n)) n 1%float = Returns (n - 1)%Z.
Proof.
  intros Hn. apply check_slot_sound.
  assert (Hall : forallb (fun n => match bin_slot (D := float)
                                           (ddiv d_one (of_size_t n)) n 1%float with
                                   | Returns s => (s =? n - 1)%Z
                                   | _ => false
                                   end) (seqZ 1 1024) = true)
    by (vm_compute; reflexivity).
  rewrite forallb_forall in Hall. apply Hall.
  apply list_elem_of_In, elem_of_seqZ. lia.
Qed.

(** With binary64 rounding an angle of M_PI goes to the last of [n] bins,
    for every [n] up to 1024. *)
Lemma binary64_angle_pi_last_bin (n : Z) :
  (1 <= n <= 1024)%Z →
  bin_slot (D := float) (ddiv d_pi (of_size_t n)) n d_pi = Returns (n - 1)%Z.
Proof.
  intros Hn. apply check_slot_sound.
  assert (Hall : forallb (fun n => match bin_slot (D := float)
                                           (ddiv d_pi (of_size_t n)) n d_pi with
                                   | Returns s => (s =? n - 1)%Z
                                   | _ => false
                                   end) (seqZ 1 1024) = true)
    by (vm_compute; reflexivity).
  rewrite forallb_forall in Hall. apply Hall.
  apply list_elem_of_In, elem_of_seqZ. lia.
Qed.

(** Two cells of ratios 0.5 and 1.0, on one process and on two. *)
Example binary64_two_cells :
  radius_ratio_histogram_data (two_cells float 0.5%float 1%float) 4
  = Returns ([0.125; 0.375; 0.625; 0.875]%float, [0; 0; 1; 1]%float)
  ∧ radius_ratio_histogram_data (split_cells float 0.5%float 1%float) 4
    = Returns ([0.125; 0.375; 0.625; 0.875]%float, [0; 0; 1; 1]%float)
  ∧ radius_ratio_min_max (split_cells float 0.5%float 1%float) = (0.5%float, 1%float).
Proof. repeat split; vm_compute; reflexivity. Qed.

(** Without bins the decrement [num_bins - 1] wraps and the first cell
    indexes an empty vector. *)
Example binary64_no_bins :
  radius_ratio_histogram_data (two_cells float 0.5%float 1%float) 0
  = UndefinedBehaviour.
Proof. vm_compute. reflexivity. Qed.

(** * Further properties of the code *)

(** ** Loops that return *)

Lemma for_each_Returns_inv {A S : Type} (body : S → A → outcome S)
    (a : A) (l : list A) (s s' : S) :
  for_each body (a :: l) s = Returns s' →
  ∃ s1, body s a = Returns s1 ∧ for_each body l s1 = Returns s'.
Proof.
  rewrite for_each_cons. destruct (body s a) as [s1| | |]; try discriminate.
  intros Hrest. by exists s1.
Qed.

(** What every returning step keeps, the returning loop keeps. *)
Lemma for_each_invariant {A S : Type} (body : S → A → outcome S) (I : S → Prop)
    (l : list A) (s s' : S) :
  (∀ s a s', I s → body s a = Returns s' → I s') →
  I s → for_each body l s = Returns s' → I s'.
Proof.
  intros Hbody. revert s. induction l as [|a l IH]; intros s Hs Hrun.
  - injection Hrun as <-. done.
  - apply for_each_Returns_inv in Hrun as (s1 & Hstep & Hrest).
    eapply IH; [|exact Hrest]. by eapply Hbody.
Qed.

Lemma for_each_no_throw {A S : Type} (body : S → A → outcome S) (l : list A) (s : S) :
  (∀ s a location task reason, body s a ≠ Throws location task reason) →
  ∀ location task reason, for_each body l s ≠ Throws location task reason.
Proof.
  intros Hbody. revert s. induction l as [|a l IH]; intros s lo ta re; simpl; [done|].
  pose proof (Hbody s a) as Hstep.
  destruct (body s a) as [s1|l0 t0 r0| |]; simpl;
    [apply IH | exfalso; by eapply Hstep | done | done].
Qed.

Lemma mapM_Returns_inv {A B : Type} (f : A → outcome B) (l : list A) (bs : list B) :
  mapM f l = Returns bs → Forall2 (fun a b => f a = Returns b) l bs.
Proof.
  revert bs. induction l as [|a l IH]; intros bs; simpl.
  - intros [= <-]. constructor.
  - destruct (f a) as [b| | |] eqn:Hb; simpl; try discriminate.
    destruct (mapM f l) as [bs'| | |]; simpl; try discriminate.
    intros [= <-]. constructor; [done | by apply IH].
Qed.

Lemma mapM_no_throw {A B : Type} (f : A → outcome B) (l : list A) :
  (∀ a location task reason, f a ≠ Throws location task reason) →
  ∀ location task reason, mapM f l ≠ Throws location task reason.
Proof.
  intros Hf. induction l as [|a l IH]; intros lo ta re; simpl; [done|].
  pose proof (Hf a) as Hstep.
  destruct (f a) as [b|l0 t0 r0| |]; simpl;
    [|exfalso; by eapply Hstep | done | done].
  specialize (IH lo ta re). destruct (mapM f l); simpl; done.
Qed.

Section HistogramShape.
Context {D : Type} `{Double D}.

Lemma bin_count_length (interval : D) (num_bins : Z) (values values' : list D) (x : D) :
  bin_count interval num_bins values x = Returns values' →
  length values' = length values.
Proof.
  unfold bin_count, bin_slot, bin_increment.
  destruct (to_size_t (ddiv x interval)); simpl; [|discriminate].
  destruct (values !! _); [|discriminate].
  intros [= <-]. apply length_insert.
Qed.

Lemma bin_count_no_throw (interval : D) (num_bins : Z) (values : list D) (x : D)
    (location task reason : string) :
  bin_count interval num_bins values x ≠ Throws location task reason.
Proof.
  unfold bin_count, bin_slot, bin_increment.
  destruct (to_size_t (ddiv x interval)); simpl; [|done].
  destruct (values !! _); done.
Qed.

(** An empty vector of values cannot be incremented. *)
Lemma bin_count_empty (interval : D) (num_bins : Z) (x : D) :
  bin_count interval num_bins [] x = UndefinedBehaviour.
Proof.
  unfold bin_count, bin_slot, bin_increment.
  destruct (to_size_t (ddiv x interval)); simpl; done.
Qed.

Lemma bin_loop_length (interval : D) (num_bins : Z) (xs values values' : list D) :
  for_each (bin_count interval num_bins) xs values = Returns values' →
  length values' = length values.
Proof.
  apply (for_each_invariant _ (fun vs => length vs = length values)); [|done].
  intros vs x vs' Hvs Hstep. rewrite <- Hvs. by eapply bin_count_length.
Qed.

Lemma radius_ratio_local_histogram_length (interval : D) (num_bins : Z)
    (cells : list (Cell D)) (values : list D) :
  radius_ratio_local_histogram interval num_bins cells = Returns values →
  length values = Z.to_nat num_bins.
Proof.
  unfold radius_ratio_local_histogram. rewrite (for_each_fmap radius_ratio).
  intros Hrun. apply bin_loop_length in Hrun. by rewrite Hrun, length_replicate.
Qed.

Lemma radius_ratio_local_histogram_no_throw (interval : D) (num_bins : Z)
    (cells : list (Cell D)) (location task reason : string) :
  radius_ratio_local_histogram interval num_bins cells ≠ Throws location task reason.
Proof.
  apply for_each_no_throw. intros values c. apply bin_count_no_throw.
Qed.

Lemma bin_centers_length (interval : D) (num_bins : Z) :
  length (bin_centers interval num_bins) = Z.to_nat num_bins.
Proof. unfold bin_centers. by rewrite length_fmap, length_seqZ. Qed.

(** The parts of a call of [radius_ratio_histogram_data] that returns. *)
Lemma radius_ratio_histogram_data_Returns_inv (mesh : Mesh D) (num_bins : Z)
    (bins values : list D) :
  radius_ratio_histogram_data mesh num_bins = Returns (bins, values) →
  let interval := ddiv d_one (of_size_t num_bins) in
  ∃ local remote,
    dleb (snd (radius_ratio_min_max mesh)) d_one = true
    ∧ radius_ratio_local_histogram interval num_bins (local_cells mesh) = Returns local
    ∧ mapM (radius_ratio_local_histogram interval num_bins) (remote_cells mesh)
      = Returns remote
    ∧ bins = bin_centers interval num_bins
    ∧ values = sum_reduce local remote.
Proof.
  unfold radius_ratio_histogram_data.
  destruct (dleb (snd (radius_ratio_min_max mesh)) d_one); simpl; [|discriminate].
  destruct (radius_ratio_local_histogram _ _ (local_cells mesh)) as [local| | |];
    simpl; try discriminate.
  destruct (mapM _ (remote_cells mesh)) as [remote| | |]; simpl; try discriminate.
  intros [= <- <-]. by exists local, remote.
Qed.

End HistogramShape.

Lemma radius_ratio_histogram_lengths {D : Type} `{Double D}
    (mesh : Mesh D) (num_bins : Z) (bins values : list D) :
  radius_ratio_histogram_data mesh num_bins = Returns (bins, values) →
  length bins = Z.to_nat num_bins ∧ length values = Z.to_nat num_bins.
Proof.
  intros Hrun.
  apply radius_ratio_histogram_data_Returns_inv in Hrun
    as (local & remote & _ & Hlocal & _ & -> & ->).
  split; [apply bin_centers_length|].
  rewrite length_sum_reduce. by eapply radius_ratio_local_histogram_length.
Qed.

(** X1: whenever [radius_ratio_histogram_data] returns, in any reading of
    [double] and for any mesh, the two vectors it returns have [num_bins]
    entries each. *)
Theorem radius_ratio_histogram_shape {D : Type} `{Double D}
    (mesh : Mesh D) (num_bins : Z) (bins values : list D) :
  radius_ratio_histogram_data mesh num_bins = Returns (bins, values) →
  length bins = Z.to_nat num_bins ∧ length values = Z.to_nat num_bins.
Proof. apply radius_ratio_histogram_lengths. Qed.

Lemma radius_ratio_histogram_shape_witness :
  length [0.125; 0.375; 0.625; 0.875]%float = Z.to_nat 4
  ∧ length [0; 0; 1; 1]%float = Z.to_nat 4.
Proof.
  apply (radius_ratio_histogram_shape (two_cells float 0.5%float 1%float) 4).
  vm_compute. reflexivity.
Defined.

Lemma radius_ratio_histogram_assertion_exact' {D : Type} `{Double D}
    (mesh : Mesh D) (num_bins : Z) :
  (radius_ratio_histogram_data mesh num_bins = AssertFails
   ↔ dleb (snd (radius_ratio_min_max mesh)) d_one = false)
  ∧ ∀ location task reason,
      radius_ratio_histogram_data mesh num_bins ≠ Throws location task reason.
Proof.
  unfold radius_ratio_histogram_data.
  destruct (dleb (snd (radius_ratio_min_max mesh)) d_one); simpl.
  - pose proof (radius_ratio_local_histogram_no_assert
                  (ddiv d_one (of_size_t num_bins)) num_bins (local_cells mesh)) as Hl.
    pose proof (radius_ratio_local_histogram_no_throw
                  (ddiv d_one (of_size_t num_bins)) num_bins (local_cells mesh)) as Hl'.
    pose proof (mapM_no_assert
                  (radius_ratio_local_histogram (ddiv d_one (of_size_t num_bins)) num_bins)
                  (remote_cells mesh)
                  (radius_ratio_local_histogram_no_assert _ _)) as Hr.
    pose proof (mapM_no_throw
                  (radius_ratio_local_histogram (ddiv d_one (of_size_t num_bins)) num_bins)
                  (remote_cells mesh)
                  (radius_ratio_local_histogram_no_throw _ _)) as Hr'.
    destruct (radius_ratio_local_histogram _ _ (local_cells mesh)) as [local|l0 t0 r0| |];
      simpl; [|exfalso; by eapply Hl' | done | split; [split; discriminate | discriminate]].
    destruct (mapM _ (remote_cells mesh)) as [remote|l0 t0 r0| |];
      simpl; [|exfalso; by eapply Hr' | done |];
      (split; [split; discriminate | discriminate]).
  - split; [done | discriminate].
Qed.


Section DihedralShape.
Context {D : Type} `{Double D} `{Libm D}.

Lemma dihedral_angles_local_histogram_length (interval : D) (num_bins : Z)
    (cells : list (Cell D)) (values : list D) :
  dihedral_angles_local_histogram interval num_bins cells = Returns values →
  length values = Z.to_nat num_bins.
Proof.
  unfold dihedral_angles_local_histogram.
  destruct (for_each _ cells _) as [[angs vs]| | |] eqn:Hrun; simpl; try discriminate.
  intros [= <-].
  apply (for_each_invariant _ (fun st => length (snd st) = Z.to_nat num_bins)) in Hrun.
  - exact Hrun.
  - intros [angs0 vs0] c [angs1 vs1] Hlen. simpl in Hlen.
    destruct (dihedral_angles c angs0) as [r angs2]. destruct r; simpl; try discriminate.
    destruct (for_each (bin_count interval num_bins) angs2 vs0) as [vs2| | |] eqn:Hin;
      simpl; try discriminate.
    intros [= <- <-]. simpl. rewrite <- Hlen. by eapply bin_loop_length.
  - simpl. apply length_replicate.
Qed.

(** The parts of a call of [dihedral_angles_histogram_data] that returns. *)
Lemma dihedral_angles_histogram_data_Returns_inv (mesh : Mesh D) (num_bins : Z)
    (bins values : list D) :
  dihedral_angles_histogram_data mesh num_bins = Returns (bins, values) →
  let interval := ddiv d_pi (of_size_t num_bins) in
  ∃ lohi local remote,
    dihedral_angles_min_max mesh = Returns lohi
    ∧ dleb d_zero (fst lohi) = true
    ∧ dleb (snd lohi) d_pi = true
    ∧ dihedral_angles_local_histogram interval num_bins (local_cells mesh)
      = Returns local
    ∧ mapM (dihedral_angles_local_histogram interval num_bins) (remote_cells mesh)
      = Returns remote
    ∧ bins = bin_centers interval num_bins
    ∧ values = sum_reduce local remote.
Proof.
  unfold dihedral_angles_histogram_data.
  destruct (dihedral_angles_min_max mesh) as [lohi| | |]; simpl; try discriminate.
  destruct (dleb d_zero (fst lohi)) eqn:Hlo; simpl; [|discriminate].
  destruct (dleb (snd lohi) d_pi) eqn:Hhi; simpl; [|discriminate].
  destruct (dihedral_angles_local_histogram _ _ (local_cells mesh)) as [local| | |];
    simpl; try discriminate.
  destruct (mapM _ (remote_cells mesh)) as [remote| | |]; simpl; try discriminate.
  intros [= <- <-]. by exists lohi, local, remote.
Qed.

End DihedralShape.

Lemma dihedral_angles_histogram_lengths {D : Type} `{Double D} `{Libm D}
    (mesh : Mesh D) (num_bins : Z) (bins values : list D) :
  dihedral_angles_histogram_data mesh num_bins = Returns (bins, values) →
  length bins = Z.to_nat num_bins ∧ length values = Z.to_nat num_bins.
Proof.
  intros Hrun.
  apply dihedral_angles_histogram_data_Returns_inv in Hrun
    as (lohi & local & remote & _ & _ & _ & Hlocal & _ & -> & ->).
  split; [apply bin_centers_length|].
  rewrite length_sum_reduce. by eapply dihedral_angles_local_histogram_length.
Qed.

(** X2: whenever [dihedral_angles_histogram_data] returns, in any reading
    of [double], for any [sqrt] and [acos] and any mesh, the two vectors it
    returns have [num_bins] entries each. *)
Theorem dihedral_angles_histogram_shape {D : Type} `{Double D} `{Libm D}
    (mesh : Mesh D) (num_bins : Z) (bins values : list D) :
  dihedral_angles_histogram_data mesh num_bins = Returns (bins, values) →
  length bins = Z.to_nat num_bins ∧ length values = Z.to_nat num_bins.
Proof. apply dihedral_angles_histogram_lengths. Qed.

Lemma dihedral_angles_histogram_shape_witness :
  length (bin_centers (Q_M_PI / inject_Z 4)%Q 4) = Z.to_nat 4
  ∧ length (sum_reduce [0; 6; 0; 0]%Q []) = Z.to_nat 4.
Proof.
  apply (dihedral_angles_histogram_shape (mkMesh [corner_tetrahedron] []) 4).
  vm_compute. reflexivity.
Defined.



(** ** Cells of the wrong dimension in a mesh *)

Section DihedralErrors.
Context {D : Type} `{Double D} `{Libm D}.

Lemma dihedral_angles_not_3d (cell : Cell D) (angs : list D) :
  cell_dim cell ≠ 3%nat →
  dihedral_angles cell angs
  = (Throws "MeshQuality.cpp" "calculate dihedral angles" "Only works for 3D cells",
     angs).
Proof.
  intros Hdim. unfold dihedral_angles.
  destruct (Nat.eqb_spec (cell_dim cell) 3) as [Heq | _]; [done|]. reflexivity.
Qed.

Lemma dihedral_angles_scan_3d (cells : list (Cell D)) :
  Forall (fun c => cell_dim c = 3%nat) cells →
  ∃ lohi, dihedral_angles_scan cells = Returns lohi.
Proof.
  intros Hdim.
  destruct (dihedral_angles_scan_ind (fun _ => True) (fun _ => True) cells)
    as (lo & hi & Hrun & _); try done.
  - apply Forall_forall. done.
  - apply Forall_forall. done.
  - by exists (lo, hi).
Qed.

(** The scan stops at the first cell that is not of dimension 3. *)
Lemma dihedral_angles_scan_throws (cells : list (Cell D)) :
  Exists (fun c => cell_dim c ≠ 3%nat) cells →
  dihedral_angles_scan cells
  = Throws "MeshQuality.cpp" "calculate dihedral angles" "Only works for 3D cells".
Proof.
  unfold dihedral_angles_scan.
  generalize (replicate 6 d_zero) (dadd d_pi d_one) (dopp d_one).
  induction cells as [|c cells IH]; intros angs lo hi Hbad.
  - inversion Hbad.
  - rewrite for_each_cons. cbv beta iota.
    destruct (decide (cell_dim c = 3%nat)) as [Hc | Hc].
    + rewrite (dihedral_angles_3d c angs Hc). cbv beta iota.
      destruct (min_element_ind (fun _ => True) (cell_angles c)) as (a & Hmin & _);
        [apply cell_angles_nonempty | by apply Forall_forall |].
      destruct (max_element_ind (fun _ => True) (cell_angles c)) as (b & Hmax & _);
        [apply cell_angles_nonempty | by apply Forall_forall |].
      rewrite Hmin, Hmax. simpl. apply IH.
      inversion Hbad; [done | done].
    + rewrite (dihedral_angles_not_3d c angs Hc). reflexivity.
Qed.

Lemma dihedral_angles_scan_mapM_throws (cellss : list (list (Cell D))) :
  Exists (Exists (fun c => cell_dim c ≠ 3%nat)) cellss →
  mapM dihedral_angles_scan cellss
  = Throws "MeshQuality.cpp" "calculate dihedral angles" "Only works for 3D cells".
Proof.
  induction cellss as [|cells cellss IH]; intros Hbad; [inversion Hbad|].
  simpl.
  destruct (Forall_Exists_dec (fun c => cell_dim c = 3%nat) (fun c => cell_dim c ≠ 3%nat)
              (fun c => decide (cell_dim c = 3%nat)) cells) as [Hgood | Hhere].
  - destruct (dihedral_angles_scan_3d cells Hgood) as [lohi ->]. simpl.
    rewrite IH; [done|]. inversion Hbad as [? ? Hhere|]; [|done].
    exfalso. rewrite Forall_forall in Hgood. apply Exists_exists in Hhere as (c & Hin & Hc).
    by apply Hc, Hgood.
  - by rewrite (dihedral_angles_scan_throws cells Hhere).
Qed.

Lemma dihedral_angles_min_max_throws (mesh : Mesh D) :
  Exists (fun c => cell_dim c ≠ 3%nat) (all_cells mesh) →
  dihedral_angles_min_max mesh
  = Throws "MeshQuality.cpp" "calculate dihedral angles" "Only works for 3D cells".
Proof.
  unfold all_cells. rewrite Exists_app. intros Hbad. unfold dihedral_angles_min_max.
  destruct (Forall_Exists_dec (fun c => cell_dim c = 3%nat) (fun c => cell_dim c ≠ 3%nat)
              (fun c => decide (cell_dim c = 3%nat)) (local_cells mesh))
    as [Hgood | Hhere].
  - destruct (dihedral_angles_scan_3d _ Hgood) as [[lo hi] ->]. simpl.
    destruct Hbad as [Hlocal | Hremote].
    + exfalso. rewrite Forall_forall in Hgood.
      apply Exists_exists in Hlocal as (c & Hin & Hc). by apply Hc, Hgood.
    + rewrite dihedral_angles_scan_mapM_throws; [done|].
      apply Exists_exists in Hremote as (c & Hin & Hc).
      apply list_elem_of_In, in_concat in Hin as (cells & Hcells & Hin).
      apply Exists_exists. exists cells. split; [by apply list_elem_of_In|].
      apply Exists_exists. exists c. split; [by apply list_elem_of_In | done].
  - by rewrite (dihedral_angles_scan_throws _ Hhere).
Qed.

Lemma dihedral_angles_local_histogram_no_assert (interval : D) (num_bins : Z)
    (cells : list (Cell D)) :
  dihedral_angles_local_histogram interval num_bins cells ≠ AssertFails.
Proof.
  unfold dihedral_angles_local_histogram.
  assert (Hloop : for_each
            (fun '(angs, values) (cell : Cell D) =>
               let '(r, angs0) := dihedral_angles cell angs in
               r ≫= fun _ : () =>
                 for_each (bin_count interval num_bins) angs0 values
                 ≫= fun values0 : list D => Returns (angs0, values0))
            cells (replicate 6 d_zero, replicate (Z.to_nat num_bins) d_zero)
          ≠ AssertFails).
  { apply for_each_no_assert. intros [angs values] c.
    unfold dihedral_angles. destruct (negb _); simpl; [done|].
    pose proof (for_each_no_assert (bin_count interval num_bins)
                  (foldl (fun dh i => <[i := dihedral_angle c i]> dh)
                         (resize 6 d_zero angs) (seq 0 6)) values
                  (bin_count_no_assert interval num_bins)) as Hin.
    destruct (for_each (bin_count interval num_bins) _ values); simpl; done. }
  destruct (for_each _ cells _) as [[angs values]| | |]; simpl; done.
Qed.

End DihedralErrors.



(** X6: in any reading of [double] in which [0.0 <= DOLFIN_PI + 1.0] and
    [-1.0 <= M_PI], on a mesh of cells of dimension 3 whose dihedral angles
    [a] all satisfy [0.0 <= a] and [a <= M_PI],
    [dihedral_angles_min_max] returns a pair within these bounds, so that
    [dihedral_angles_histogram_data] passes both its assertions and raises
    no error. *)
Theorem dihedral_angles_assertions_hold {D : Type} `{Double D} `{Libm D}
    (mesh : Mesh D) (num_bins : Z) :
  dleb d_zero (dadd d_pi d_one) = true → dleb (dopp d_one) d_pi = true →
  Forall (fun c => cell_dim c = 3%nat) (all_cells mesh) →
  Forall (fun a => dleb d_zero a = true ∧ dleb a d_pi = true) (all_angles mesh) →
  (∃ lo hi, dihedral_angles_min_max mesh = Returns (lo, hi)
            ∧ dleb d_zero lo = true ∧ dleb hi d_pi = true)
  ∧ dihedral_angles_histogram_data mesh num_bins ≠ AssertFails
  ∧ ∀ location task reason,
      dihedral_angles_histogram_data mesh num_bins ≠ Throws location task reason.
Proof.
  intros Hlo0 Hhi0 Hdim Hangles.
  destruct (dihedral_angles_min_max_ind
              (fun x => dleb d_zero x = true) (fun x => dleb x d_pi = true) mesh)
    as (lo & hi & Hminmax & Hlo & Hhi); try done.
  { eapply Forall_impl; [exact Hangles|]. by intros a [? _]. }
  { eapply Forall_impl; [exact Hangles|]. by intros a [_ ?]. }
  split; [by exists lo, hi|].
  unfold all_cells in Hdim. apply Forall_app in Hdim as [Hdl Hdr].
  rewrite Forall_concat in Hdr.
  unfold dihedral_angles_histogram_data. rewrite Hminmax. simpl.
  rewrite Hlo. simpl. rewrite Hhi. simpl.
  set (interval := ddiv d_pi (of_size_t num_bins)).
  assert (Hone : ∀ cells, Forall (fun c => cell_dim c = 3%nat) cells →
            dihedral_angles_local_histogram interval num_bins cells ≠ AssertFails
            ∧ ∀ location task reason,
                dihedral_angles_local_histogram interval num_bins cells
                ≠ Throws location task reason).
  { intros cells Hcells. split; [apply dihedral_angles_local_histogram_no_assert|].
    rewrite (dihedral_angles_local_histogram_angles interval num_bins cells Hcells).
    apply for_each_no_throw. intros vs x. apply bin_count_no_throw. }
  destruct (Hone _ Hdl) as [Hl Hl'].
  destruct (dihedral_angles_local_histogram interval num_bins (local_cells mesh))
    as [local|l0 t0 r0| |]; simpl; [|exfalso; by eapply Hl' | done | done].
  assert (Hr : mapM (dihedral_angles_local_histogram interval num_bins) (remote_cells mesh)
               ≠ AssertFails
               ∧ ∀ location task reason,
                   mapM (dihedral_angles_local_histogram interval num_bins)
                        (remote_cells mesh) ≠ Throws location task reason).
  { clear Hminmax. induction Hdr as [|cells cellss Hcells _ IH]; simpl; [done|].
    destruct (Hone _ Hcells) as [H1 H2].
    destruct (dihedral_angles_local_histogram interval num_bins cells)
      as [vs|l0 t0 r0| |]; simpl; [|exfalso; by eapply H2 | done | done].
    destruct IH as [IH1 IH2].
    destruct (mapM _ cellss) as [vss|l0 t0 r0| |]; simpl;
      [done | exfalso; by eapply IH2 | done | done]. }
  destruct Hr as [Hr Hr'].
  destruct (mapM _ (remote_cells mesh)) as [remote|l0 t0 r0| |]; simpl;
    [done | exfalso; by eapply Hr' | done | done].
Qed.

Lemma dihedral_angles_assertions_hold_witness :
  let mesh := mkMesh [corner_tetrahedron_f64] [[corner_tetrahedron_f64]] in
  (∃ lo hi, dihedral_angles_min_max mesh = Returns (lo, hi)
            ∧ dleb d_zero lo = true ∧ dleb hi d_pi = true)
  ∧ dihedral_angles_histogram_data mesh 4 ≠ AssertFails
  ∧ ∀ location task reason,
      dihedral_angles_histogram_data mesh 4 ≠ Throws location task reason.
Proof.
  apply dihedral_angles_assertions_hold.
  - reflexivity.
  - reflexivity.
  - repeat constructor.
  - repeat constructor.
Defined.

(** ** Meshes without cells *)

Section NoCells.
Context {D : Type} `{Double D}.

Lemma no_cells_replicate {A : Type} (ls : list (list A)) :
  Forall (eq []) ls → ls = replicate (length ls) [].
Proof. induction 1 as [|l ls <- _ IH]; simpl; [done|]. by rewrite <- IH. Qed.

Lemma mapM_replicate {A B : Type} (f : A → outcome B) (a : A) (b : B) (k : nat) :
  f a = Returns b → mapM f (replicate k a) = Returns (replicate k b).
Proof.
  intros Hb. induction k as [|k IH]; simpl; [done|]. rewrite Hb. simpl.
  rewrite IH. reflexivity.
Qed.

Lemma foldl_dadd_zeros (k : nat) :
  dadd d_zero d_zero = d_zero → foldl dadd d_zero (replicate k d_zero) = d_zero.
Proof. intros Hz. induction k as [|k IH]; simpl; [done|]. by rewrite Hz. Qed.

(** Sum-reducing vectors of zeros gives zeros. *)
Lemma sum_reduce_zeros (n k : nat) :
  dadd d_zero d_zero = d_zero →
  sum_reduce (replicate n d_zero) (replicate k (replicate n d_zero))
  = replicate n d_zero.
Proof.
  intros Hz. apply list_eq. intros i. unfold sum_reduce.
  rewrite list_lookup_imap.
  destruct (decide (i < n)%nat) as [Hi | Hi].
  - rewrite !(lookup_replicate_2 _ _ _ Hi). simpl. f_equal. unfold MPI_sum.
    rewrite fmap_replicate, (lookup_replicate_2 _ _ _ Hi). simpl.
    by apply foldl_dadd_zeros.
  - rewrite !(proj1 (lookup_replicate_None n d_zero i)) by lia. reflexivity.
Qed.

Lemma radius_ratio_histogram_data_no_cells (mesh : Mesh D) (num_bins : Z) :
  dleb d_zero d_one = true → dadd d_zero d_zero = d_zero →
  local_cells mesh = [] → Forall (eq []) (remote_cells mesh) →
  radius_ratio_histogram_data mesh num_bins
  = Returns (bin_centers (ddiv d_one (of_size_t num_bins)) num_bins,
             replicate (Z.to_nat num_bins) d_zero).
Proof.
  intros H01 Hz Hlocal Hremote. unfold radius_ratio_histogram_data.
  rewrite (radius_ratio_min_max_no_cells mesh Hlocal Hremote). simpl.
  rewrite H01, Hlocal, (no_cells_replicate _ Hremote). simpl.
  rewrite (mapM_replicate _ [] (replicate (Z.to_nat num_bins) d_zero)) by done.
  simpl. by rewrite sum_reduce_zeros.
Qed.

End NoCells.

Section NoCellsDihedral.
Context {D : Type} `{Double D} `{Libm D}.

Lemma dihedral_angles_min_max_no_cells (mesh : Mesh D) :
  local_cells mesh = [] → Forall (eq []) (remote_cells mesh) →
  dihedral_angles_min_max mesh = Returns (dadd d_pi d_one, dopp d_one).
Proof.
  intros Hlocal Hremote. unfold dihedral_angles_min_max.
  rewrite Hlocal, (no_cells_replicate _ Hremote). simpl.
  rewrite (mapM_replicate _ [] (dadd d_pi d_one, dopp d_one)) by done. simpl.
  rewrite !fmap_replicate. simpl. unfold MPI_min, MPI_max. f_equal. f_equal.
  - apply foldl_std_min_const, Forall_replicate_eq.
  - apply foldl_std_max_const, Forall_replicate_eq.
Qed.

Lemma dihedral_angles_histogram_data_no_cells (mesh : Mesh D) (num_bins : Z) :
  dleb d_zero (dadd d_pi d_one) = true → dleb (dopp d_one) d_pi = true →
  dadd d_zero d_zero = d_zero →
  local_cells mesh = [] → Forall (eq []) (remote_cells mesh) →
  dihedral_angles_histogram_data mesh num_bins
  = Returns (bin_centers (ddiv d_pi (of_size_t num_bins)) num_bins,
             replicate (Z.to_nat num_bins) d_zero).
Proof.
  intros Hlo Hhi Hz Hlocal Hremote. unfold dihedral_angles_histogram_data.
  rewrite (dihedral_angles_min_max_no_cells mesh Hlocal Hremote). simpl.
  rewrite Hlo. simpl. rewrite Hhi. simpl.
  rewrite Hlocal, (no_cells_replicate _ Hremote).
  change (dihedral_angles_local_histogram (ddiv d_pi (of_size_t num_bins)) num_bins [])
    with (Returns (replicate (Z.to_nat num_bins) d_zero)).
  simpl.
  rewrite (mapM_replicate _ [] (replicate (Z.to_nat num_bins) d_zero)) by done.
  simpl. by rewrite sum_reduce_zeros.
Qed.

End NoCellsDihedral.

(** X7: on binary64, on a mesh without cells on any process and for any
    number of bins, zero included, [radius_ratio_histogram_data] returns:
    the assertion holds for the start value 0.0, the bins are the usual
    centres and every value is 0.0. *)
Theorem radius_ratio_histogram_empty_mesh (mesh : Mesh float) (num_bins : Z) :
  local_cells mesh = [] → Forall (eq []) (remote_cells mesh) →
  radius_ratio_histogram_data mesh num_bins
  = Returns (bin_centers (1 / f64_of_Z num_bins)%float num_bins,
             replicate (Z.to_nat num_bins) 0%float).
Proof.
  intros Hlocal Hremote.
  exact (radius_ratio_histogram_data_no_cells (D := float) mesh num_bins
           eq_refl eq_refl Hlocal Hremote).
Qed.

Lemma radius_ratio_histogram_empty_mesh_witness :
  radius_ratio_histogram_data (empty_mesh float 3) 4
  = Returns (bin_centers (1 / f64_of_Z 4)%float 4, replicate (Z.to_nat 4) 0%float).
Proof.
  apply radius_ratio_histogram_empty_mesh; [reflexivity|]. repeat constructor.
Defined.

(** X8: on binary64 and for any [sqrt] and [acos], on a mesh without cells
    on any process [dihedral_angles_min_max] returns its start values
    (DOLFIN_PI + 1.0, -1.0), a "minimum" above the "maximum"; both
    assertions of [dihedral_angles_histogram_data] accept this pair and the
    histogram returned has every value 0.0. *)
Theorem dihedral_angles_empty_mesh {libm : Libm float} (mesh : Mesh float)
    (num_bins : Z) :
  local_cells mesh = [] → Forall (eq []) (remote_cells mesh) →
  dihedral_angles_min_max mesh = Returns ((f64_M_PI + 1)%float, (-1)%float)
  ∧ ((-1) <? f64_M_PI + 1)%float = true
  ∧ dihedral_angles_histogram_data mesh num_bins
    = Returns (bin_centers (f64_M_PI / f64_of_Z num_bins)%float num_bins,
               replicate (Z.to_nat num_bins) 0%float).
Proof.
  intros Hlocal Hremote. split; [|split].
  - exact (dihedral_angles_min_max_no_cells (D := float) mesh Hlocal Hremote).
  - reflexivity.
  - exact (dihedral_angles_histogram_data_no_cells (D := float) mesh num_bins
             eq_refl eq_refl eq_refl Hlocal Hremote).
Qed.

Lemma dihedral_angles_empty_mesh_witness :
  dihedral_angles_min_max (empty_mesh float 3) = Returns ((f64_M_PI + 1)%float, (-1)%float)
  ∧ ((-1) <? f64_M_PI + 1)%float = true
  ∧ dihedral_angles_histogram_data (empty_mesh float 3) 4
    = Returns (bin_centers (f64_M_PI / f64_of_Z 4)%float 4,
               replicate (Z.to_nat 4) 0%float).
Proof.
  apply (dihedral_angles_empty_mesh (libm := CoarseF64)); [reflexivity|].
  repeat constructor.
Defined.

(** ** When the radius ratio histogram returns *)

Section HistogramReturns.
Context {D : Type} `{Double D}.
Hypothesis to_size_t_nonneg : ∀ (x : D) (t : Z), to_size_t x = Some t → (0 <= t)%Z.
Variables (w : D) (n : Z).
Hypothesis Hn : (1 <= n < size_t_modulus)%Z.

Lemma bin_count_defined (values : list D) (x : D) (t : Z) :
  to_size_t (ddiv x w) = Some t → length values = Z.to_nat n →
  ∃ vs, bin_count w n values x = Returns vs ∧ length vs = Z.to_nat n.
Proof.
  intros Ht Hlen. pose proof (to_size_t_nonneg _ _ Ht) as Ht0.
  unfold bin_count, bin_slot. rewrite Ht, (size_t_sub_one n Hn).
  destruct (lookup_lt_is_Some_2 values (Z.to_nat (Z.min t (n - 1)))) as [v Hv]; [lia|].
  exists (<[Z.to_nat (Z.min t (n - 1)) := dadd v d_one]> values).
  split; [|by rewrite length_insert].
  change (bin_increment values (Z.min t (n - 1))
          = Returns (<[Z.to_nat (Z.min t (n - 1)) := dadd v d_one]> values)).
  unfold bin_increment. by rewrite Hv.
Qed.

Lemma bin_count_undefined (values : list D) (x : D) :
  to_size_t (ddiv x w) = None → bin_count w n values x = UndefinedBehaviour.
Proof. intros Ht. unfold bin_count, bin_slot. by rewrite Ht. Qed.

(** With at least one bin the clamped slot indexes the vector of values;
    the loop goes wrong only at a quotient that has no conversion to
    [size_t]. *)
Lemma bin_loop_returns_iff (xs : list D) :
  ∀ values : list D,
    length values = Z.to_nat n →
    (∃ vs, for_each (bin_count w n) xs values = Returns vs)
    ↔ Forall (fun x => to_size_t (ddiv x w) ≠ None) xs.
Proof.
  induction xs as [|x xs IH]; intros values Hlen.
  - split; [constructor | by exists values].
  - rewrite for_each_cons, Forall_cons.
    destruct (to_size_t (ddiv x w)) as [t|] eqn:Ht.
    + destruct (bin_count_defined values x t Ht Hlen) as (vs1 & -> & Hlen1).
      simpl. rewrite (IH vs1 Hlen1). split; [by intros ? | by intros [_ ?]].
    + rewrite (bin_count_undefined values x Ht). simpl.
      split; [by intros [vs ?] | by intros [? _]].
Qed.

Lemma radius_ratio_local_histogram_returns_iff (cells : list (Cell D)) :
  (∃ vs, radius_ratio_local_histogram w n cells = Returns vs)
  ↔ Forall (fun c => to_size_t (ddiv (radius_ratio c) w) ≠ None) cells.
Proof.
  unfold radius_ratio_local_histogram. rewrite (for_each_fmap radius_ratio).
  rewrite bin_loop_returns_iff by apply length_replicate.
  by rewrite Forall_fmap.
Qed.

End HistogramReturns.

Lemma mapM_returns_iff {A B : Type} (f : A → outcome B) (l : list A) :
  (∃ bs, mapM f l = Returns bs) ↔ Forall (fun a => ∃ b, f a = Returns b) l.
Proof.
  split.
  - intros [bs Hbs]. apply mapM_Returns_inv in Hbs.
    induction Hbs; constructor; eauto.
  - intros Hl. destruct (mapM_Returns f (fun _ _ => True) l) as (bs & Hbs & _).
    + eapply Forall_impl; [exact Hl|]. intros a [b Hb]. by exists b.
    + by exists bs.
Qed.

(** A conversion to [size_t] that is defined gives a [size_t]. *)
Lemma f64_to_size_t_nonneg (x : float) (t : Z) :
  to_size_t x = Some t → (0 <= t)%Z.
Proof. intros Ht. by apply f64_to_size_t_range in Ht as [? _]. Qed.



(** ** Exact arithmetic: the extreme dihedral angles *)

Section DihedralExtrema.
Open Scope Q_scope.
Context {libm : Libm Q}.

Lemma Q_min_element_le (l : list Q) (m : Q) :
  min_element l = Returns m → Forall (fun a => m <= a) l.
Proof.
  destruct l as [|x l]; [discriminate|]. intros [= <-].
  destruct (Q_foldl_std_min_le l x) as [Hx Hl]. by constructor.
Qed.

Lemma Q_max_element_ge (l : list Q) (m : Q) :
  max_element l = Returns m → Forall (fun a => a <= m) l.
Proof.
  destruct l as [|x l]; [discriminate|]. intros [= <-].
  destruct (Q_foldl_std_max_ge l x) as [Hx Hl]. by constructor.
Qed.

(** The scan of one process bounds its start values and every angle. *)
Lemma dihedral_angles_scan_bounds (cells : list (Cell Q)) (lo hi : Q) :
  Forall (fun c => cell_dim c = 3%nat) cells →
  dihedral_angles_scan cells = Returns (lo, hi) →
  lo <= dadd d_pi d_one ∧ dopp d_one <= hi
  ∧ Forall (fun a => lo <= a ∧ a <= hi) (angles_of cells).
Proof.
  unfold dihedral_angles_scan.
  generalize (replicate 6 (d_zero (D := Q))) (dadd (D := Q) d_pi d_one)
             (dopp (D := Q) d_one).
  intros angs lo0 hi0 Hdim. revert angs lo0 hi0.
  induction Hdim as [|c cells Hc _ IH]; intros angs lo0 hi0.
  - simpl. intros [= <- <-]. split; [lra|]. split; [lra | constructor].
  - rewrite for_each_cons. cbv beta iota.
    rewrite (dihedral_angles_3d c angs Hc). cbv beta iota.
    destruct (min_element (cell_angles c)) as [m| | |] eqn:Hm; try discriminate.
    destruct (max_element (cell_angles c)) as [M| | |] eqn:HM; try discriminate.
    simpl. intros Hrest. apply IH in Hrest as (Hlo & Hhi & Hall).
    apply Q_min_element_le in Hm. apply Q_max_element_ge in HM.
    destruct (Q_std_min_le lo0 m) as [H1 H2].
    destruct (Q_std_max_ge hi0 M) as [H3 H4].
    split; [lra|]. split; [lra|].
    change (angles_of (c :: cells)) with (cell_angles c ++ angles_of cells).
    apply Forall_app. split; [|done].
    rewrite Forall_forall in Hm, HM |- *. intros a Ha.
    specialize (Hm a Ha). specialize (HM a Ha). lra.
Qed.

Lemma dihedral_angles_min_max_bounds (mesh : Mesh Q) (lo hi : Q) :
  Forall (fun c => cell_dim c = 3%nat) (all_cells mesh) →
  dihedral_angles_min_max mesh = Returns (lo, hi) →
  Forall (fun a => lo <= a ∧ a <= hi) (all_angles mesh).
Proof.
  intros Hdim. unfold all_cells in Hdim. apply Forall_app in Hdim as [Hdl Hdr].
  rewrite Forall_concat in Hdr.
  unfold dihedral_angles_min_max.
  destruct (dihedral_angles_scan (local_cells mesh)) as [[lo0 hi0]| | |] eqn:Hlocal;
    simpl; try discriminate.
  destruct (mapM dihedral_angles_scan (remote_cells mesh)) as [remote| | |] eqn:Hremote;
    simpl; try discriminate.
  intros [= <- <-]. unfold MPI_min, MPI_max.
  destruct (Q_foldl_std_min_le (fst <$> remote) lo0) as [Hlo0 Hlos].
  destruct (Q_foldl_std_max_ge (snd <$> remote) hi0) as [Hhi0 Hhis].
  set (lo := foldl std_min lo0 (fst <$> remote)) in *.
  set (hi := foldl std_max hi0 (snd <$> remote)) in *. clearbody lo hi.
  unfold all_angles, all_cells. rewrite angles_of_app, angles_of_concat.
  apply Forall_app. split.
  - apply dihedral_angles_scan_bounds in Hlocal as (_ & _ & Hall); [|done].
    eapply Forall_impl; [exact Hall|]. intros a [? ?]. simpl. lra.
  - apply Forall_concat, Forall_fmap.
    apply mapM_Returns_inv in Hremote. rewrite Forall_fmap in Hlos, Hhis.
    clear Hlocal. induction Hremote as [|cells [lo1 hi1] cellss remote Hscan _ IH].
    + constructor.
    + inversion Hdr; subst. inversion Hlos; subst. inversion Hhis; subst.
      constructor; [|by apply IH].
      apply dihedral_angles_scan_bounds in Hscan as (_ & _ & Hall); [|done].
      simpl in *. eapply Forall_impl; [exact Hall|]. intros a [? ?]. simpl. lra.
Qed.

End DihedralExtrema.

(** X10: in exact arithmetic and for any [sqrt] and [acos], on a mesh of
    cells of dimension 3 with at least one cell whose dihedral angles lie
    between the start values -1 and DOLFIN_PI + 1 of the scan,
    [dihedral_angles_min_max] returns the least and the greatest dihedral
    angle over the cells of all processes. *)
Theorem dihedral_angles_min_max_global_extrema {libm : Libm Q} (mesh : Mesh Q) :
  all_cells mesh ≠ [] →
  Forall (fun c => cell_dim c = 3%nat) (all_cells mesh) →
  Forall (fun a => -1 <= a ∧ a <= Q_M_PI + 1)%Q (all_angles mesh) →
  ∃ lo hi,
    dihedral_angles_min_max mesh = Returns (lo, hi)
    ∧ Forall (fun a => lo <= a ∧ a <= hi)%Q (all_angles mesh)
    ∧ Exists (fun a => a == lo) (all_angles mesh)
    ∧ Exists (fun a => a == hi) (all_angles mesh).
Proof.
  intros Hne Hdim Hrange.
  destruct (dihedral_angles_min_max_ind
              (fun x => x = (Q_M_PI + 1)%Q ∨ Exists (fun a => a == x) (all_angles mesh))
              (fun x => x = (- (1))%Q ∨ Exists (fun a => a == x) (all_angles mesh)) mesh)
    as (lo & hi & Hrun & Hlo & Hhi); try done.
  { by left. }
  { by left. }
  { apply Forall_forall. intros a Ha. right. apply Exists_exists.
    exists a. split; [done | reflexivity]. }
  { apply Forall_forall. intros a Ha. right. apply Exists_exists.
    exists a. split; [done | reflexivity]. }
  pose proof (dihedral_angles_min_max_bounds mesh lo hi Hdim Hrun) as Hbounds.
  exists lo, hi. split; [done|]. split; [done|].
  assert (Hsome : ∃ a, a ∈ all_angles mesh).
  { unfold all_angles. destruct (all_cells mesh) as [|c cells]; [done|].
    exists (dihedral_angle c 0). apply list_elem_of_here. }
  destruct Hsome as [a Ha].
  rewrite Forall_forall in Hbounds, Hrange.
  specialize (Hbounds a Ha). specialize (Hrange a Ha).
  split.
  - destruct Hlo as [-> | ?]; [|done]. apply Exists_exists. exists a.
    split; [done|]. lra.
  - destruct Hhi as [-> | ?]; [|done]. apply Exists_exists. exists a.
    split; [done|]. lra.
Qed.

Lemma dihedral_angles_min_max_global_extrema_witness :
  let mesh := mkMesh [corner_tetrahedron] [[corner_tetrahedron]] in
  ∃ lo hi,
    dihedral_angles_min_max mesh = Returns (lo, hi)
    ∧ Forall (fun a => lo <= a ∧ a <= hi)%Q (all_angles mesh)
    ∧ Exists (fun a => a == lo) (all_angles mesh)
    ∧ Exists (fun a => a == hi) (all_angles mesh).
Proof.
  apply (dihedral_angles_min_max_global_extrema (libm := CoarseQ)).
  - discriminate.
  - repeat constructor.
  - repeat constructor; vm_compute; discriminate.
Defined.

(** ** Exact arithmetic: independence of the distribution of the cells *)

Section Distribution.
Open Scope Q_scope.

(** The global minimum is the least of DBL_MAX and the radius ratios, the
    global maximum the greatest of 0.0 and the radius ratios. *)
Lemma radius_ratio_min_least (mesh : Mesh Q) :
  let L := Q_DBL_MAX :: (radius_ratio <$> all_cells mesh) in
  Forall (fun y => fst (radius_ratio_min_max mesh) <= y) L
  ∧ Exists (fun y => y == fst (radius_ratio_min_max mesh)) L.
Proof.
  intros L. split.
  - constructor.
    + rewrite radius_ratio_min_max_folds. simpl. unfold MPI_min.
      destruct (Q_foldl_std_min_le
                  (fst <$> (radius_ratio_scan <$> remote_cells mesh))
                  (fst (radius_ratio_scan (local_cells mesh)))) as [H1 _].
      rewrite radius_ratio_scan_folds in H1 |- *. simpl in *.
      destruct (Q_foldl_std_min_le (radius_ratio <$> local_cells mesh) Q_DBL_MAX)
        as [H2 _].
      lra.
    + rewrite Forall_fmap. apply radius_ratio_min_lower_bound.
  - apply (radius_ratio_min_ind (fun x => Exists (fun y => y == x) L)).
    + left. reflexivity.
    + apply Forall_forall. intros c Hc. right. apply Exists_exists.
      exists (radius_ratio c). split; [|reflexivity]. by apply list_elem_of_fmap_2.
Qed.

Lemma radius_ratio_max_greatest (mesh : Mesh Q) :
  let L := 0 :: (radius_ratio <$> all_cells mesh) in
  Forall (fun y => y <= snd (radius_ratio_min_max mesh)) L
  ∧ Exists (fun y => y == snd (radius_ratio_min_max mesh)) L.
Proof.
  intros L. split.
  - constructor.
    + rewrite radius_ratio_min_max_folds. simpl. unfold MPI_max.
      destruct (Q_foldl_std_max_ge
                  (snd <$> (radius_ratio_scan <$> remote_cells mesh))
                  (snd (radius_ratio_scan (local_cells mesh)))) as [H1 _].
      rewrite radius_ratio_scan_folds in H1 |- *. simpl in *.
      destruct (Q_foldl_std_max_ge (radius_ratio <$> local_cells mesh) 0) as [H2 _].
      lra.
    + rewrite Forall_fmap. apply radius_ratio_max_upper_bound.
  - apply (radius_ratio_max_ind (fun x => Exists (fun y => y == x) L)).
    + left. reflexivity.
    + apply Forall_forall. intros c Hc. right. apply Exists_exists.
      exists (radius_ratio c). split; [|reflexivity]. by apply list_elem_of_fmap_2.
Qed.

Lemma tally_Permutation (w : Q) (n : Z) (xs ys : list Q) (j : nat) :
  xs ≡ₚ ys → tally w n xs j = tally w n ys j.
Proof. intros Hperm. unfold tally. by rewrite Hperm. Qed.

End Distribution.

(** X11: in exact arithmetic the pair [radius_ratio_min_max] returns does
    not depend on how the cells are distributed over the processes nor on
    the order in which they are visited: two meshes with the same cells
    give equal minima and equal maxima, whatever the radius ratios. *)
Theorem radius_ratio_min_max_distribution (mesh1 mesh2 : Mesh Q) :
  all_cells mesh1 ≡ₚ all_cells mesh2 →
  fst (radius_ratio_min_max mesh1) == fst (radius_ratio_min_max mesh2)
  ∧ snd (radius_ratio_min_max mesh1) == snd (radius_ratio_min_max mesh2).
Proof.
  intros Hperm.
  destruct (radius_ratio_min_least mesh1) as [Hlow1 Hatt1].
  destruct (radius_ratio_min_least mesh2) as [Hlow2 Hatt2].
  destruct (radius_ratio_max_greatest mesh1) as [Hup1 Htop1].
  destruct (radius_ratio_max_greatest mesh2) as [Hup2 Htop2].
  cbv zeta in *. rewrite <- Hperm in Hlow2, Hatt2, Hup2, Htop2.
  split.
  - by apply (least_unique (Q_DBL_MAX :: (radius_ratio <$> all_cells mesh1))).
  - by apply (greatest_unique (0%Q :: (radius_ratio <$> all_cells mesh1))).
Qed.

Lemma radius_ratio_min_max_distribution_witness :
  fst (radius_ratio_min_max (two_cells Q (1 # 2) 1%Q))
  == fst (radius_ratio_min_max (split_cells Q (1 # 2) 1%Q))
  ∧ snd (radius_ratio_min_max (two_cells Q (1 # 2) 1%Q))
    == snd (radius_ratio_min_max (split_cells Q (1 # 2) 1%Q)).
Proof.
  apply radius_ratio_min_max_distribution. reflexivity.
Defined.



(** ** Exact arithmetic: a cell and the bin that counts it *)

Section BinContainsSample.
Open Scope Q_scope.
Variables (w : Q) (n : Z).
Hypothesis Hw : 0 < w.
Hypothesis Hn : (1 <= n < size_t_modulus)%Z.

(** The sample lies in the interval of its bin. *)
Lemma bin_index_interval (x : Q) :
  0 <= x → x <= inject_Z n * w →
  inject_Z (bin_index w n x) * w <= x
  ∧ x <= inject_Z (bin_index w n x + 1) * w.
Proof.
  intros H0 H1. unfold bin_index.
  pose proof (Qfloor_le (x / w)) as Hfl. pose proof (Qlt_floor (x / w)) as Hfu.
  assert (Hx : x == (x / w) * w) by (field; lra).
  set (q := x / w) in *.
  destruct (Z.min_spec (Qfloor q) (n - 1)) as [[Hlt ->] | [Hge ->]].
  - assert (inject_Z (Qfloor q) * w <= q * w) by (apply Qmult_le_compat_r; lra).
    assert (q * w <= inject_Z (Qfloor q + 1) * w) by (apply Qmult_le_compat_r; lra).
    split; lra.
  - assert (inject_Z (n - 1) <= q).
    { apply Qle_trans with (inject_Z (Qfloor q)); [|done]. by rewrite <- Zle_Qle. }
    assert (inject_Z (n - 1) * w <= q * w) by (apply Qmult_le_compat_r; lra).
    replace (n - 1 + 1)%Z with n by lia. split; lra.
Qed.

Lemma bin_centers_at (j : Z) :
  (0 <= j < n)%Z →
  bin_centers w n !! Z.to_nat j = Some (inject_Z j * w + w / 2).
Proof.
  intros Hj. unfold bin_centers. rewrite list_lookup_fmap.
  rewrite lookup_seqZ_lt by lia. rewrite Z2Nat.id, Z.add_0_l by lia. reflexivity.
Qed.

End BinContainsSample.





(** ** The Matplotlib scripts *)

Section Strings.
Open Scope string_scope.

Lemma append_assoc (a b c : string) : (a ++ b) ++ c = a ++ (b ++ c).
Proof. induction a as [|x a IH]; simpl; [done|]. by rewrite IH. Qed.

Lemma append_empty_r (a : string) : a ++ "" = a.
Proof. induction a as [|x a IH]; simpl; [done|]. by rewrite IH. Qed.

(** Appending a comma and an entry for each further entry is joining with
    commas. *)
Lemma concat_comma (x : string) (xs : list string) :
  x ++ String.concat "" ((fun y => ", " ++ y) <$> xs) = String.concat ", " (x :: xs).
Proof.
  revert x. induction xs as [|y xs IH]; intros x.
  - simpl. apply append_empty_r.
  - change (String.concat ", " (x :: y :: xs))
      with (x ++ ", " ++ String.concat ", " (y :: xs)).
    rewrite <- IH. f_equal.
    destruct xs as [|z xs]; simpl; by rewrite ?append_empty_r.
Qed.

End Strings.

Section ScriptLists.
Context {D : Type} `{Format D}.
Open Scope string_scope.

(** The loop over the entries from index [length pre] on. *)
Lemma histogram_lists_loop (bs vs : list D) :
  length bs = length vs →
  ∀ (pre_b pre_v : list D) (acc_b acc_v : string),
    length pre_b = length pre_v →
    for_each (fun '(bins, values) i =>
                match (pre_b ++ bs)%list !! i, (pre_v ++ vs)%list !! i with
                | Some b, Some v =>
                    Returns (bins ++ ", " ++ show_double b,
                             values ++ ", " ++ show_double v)
                | _, _ => UndefinedBehaviour
                end)
             (seq (length pre_b) (length bs)) (acc_b, acc_v)
    = Returns (acc_b ++ String.concat "" ((fun y => ", " ++ y) <$> (show_double <$> bs)),
               acc_v ++ String.concat "" ((fun y => ", " ++ y) <$> (show_double <$> vs))).
Proof.
  revert vs. induction bs as [|b bs IH]; intros [|v vs] Hlen pre_b pre_v acc_b acc_v Hpre;
    try discriminate.
  - simpl. by rewrite !append_empty_r.
  - injection Hlen as Hlen. simpl length. rewrite <- cons_seq, for_each_cons.
    cbv beta iota.
    rewrite (list_lookup_middle pre_b (bs) b (length pre_b) eq_refl).
    rewrite (list_lookup_middle pre_v (vs) v (length pre_b) Hpre).
    simpl mbind.
    replace (pre_b ++ b :: bs)%list with ((pre_b ++ [b]) ++ bs)%list
      by (by rewrite <- app_assoc).
    replace (pre_v ++ v :: vs)%list with ((pre_v ++ [v]) ++ vs)%list
      by (by rewrite <- app_assoc).
    replace (S (length pre_b)) with (length (pre_b ++ [b])%list) by (rewrite length_app; simpl; lia).
    rewrite (IH vs Hlen (pre_b ++ [b])%list (pre_v ++ [v])%list) by (rewrite !length_app; simpl; lia).
    f_equal. f_equal.
    + rewrite !append_assoc. f_equal. f_equal.
      destruct bs; simpl; by rewrite ?append_empty_r.
    + rewrite !append_assoc. f_equal. f_equal.
      destruct vs; simpl; by rewrite ?append_empty_r.
Qed.

(** The two lines list the entries of the two vectors in order, separated
    by a comma and a space. *)
Lemma histogram_lists_join (bins values : list D) :
  bins ≠ [] → length bins = length values →
  histogram_lists (bins, values)
  = Returns ("    bins = [" ++ String.concat ", " (show_double <$> bins) ++ "]",
             "    values = [" ++ String.concat ", " (show_double <$> values) ++ "]").
Proof.
  destruct bins as [|b0 bs]; [done|]. destruct values as [|v0 vs]; [discriminate|].
  intros _ [= Hlen]. unfold histogram_lists. cbn [fst snd lookup list_lookup length].
  replace (S (length bs) - 1)%nat with (length bs) by lia.
  pose proof (histogram_lists_loop bs vs Hlen [b0] [v0]
                ("    bins = [" ++ show_double b0) ("    values = [" ++ show_double v0)
                eq_refl) as Hloop.
  simpl app in Hloop. simpl length at 1 in Hloop. rewrite Hloop. simpl mbind.
  rewrite !append_assoc. rewrite !fmap_cons, <- !concat_comma.
  by rewrite !append_assoc.
Qed.

Lemma histogram_asserts_pass (bins values : list D) :
  bins ≠ [] → length bins = length values →
  histogram_asserts (bins, values) = Returns tt.
Proof.
  intros Hne Hlen. unfold histogram_asserts. cbn [fst snd].
  rewrite Hlen, Nat.eqb_refl. by destruct bins.
Qed.

Lemma histogram_asserts_empty (values : list D) :
  histogram_asserts ([], values) = AssertFails.
Proof. reflexivity. Qed.

End ScriptLists.

(** X15: a script needs at least one bin.  In any reading of [double] and
    for any mesh, neither [radius_ratio_matplotlib_histogram] nor
    [dihedral_angles_matplotlib_histogram] returns a script for 0
    intervals: if the histogram is returned at all it is empty and the
    first assertion stops the call. *)
Theorem matplotlib_histogram_needs_bins {D : Type} `{Double D} `{Libm D} `{Format D}
    (mesh : Mesh D) (text : string) :
  radius_ratio_matplotlib_histogram mesh 0 ≠ Returns text
  ∧ dihedral_angles_matplotlib_histogram mesh 0 ≠ Returns text.
Proof.
  split.
  - unfold radius_ratio_matplotlib_histogram.
    destruct (radius_ratio_histogram_data mesh 0) as [[bins values]| | |] eqn:Hrun;
      simpl; try discriminate.
    apply radius_ratio_histogram_lengths in Hrun as [Hbins _].
    apply nil_length_inv in Hbins as ->. by rewrite histogram_asserts_empty.
  - unfold dihedral_angles_matplotlib_histogram.
    destruct (dihedral_angles_histogram_data mesh 0) as [[bins values]| | |] eqn:Hrun;
      simpl; try discriminate.
    apply dihedral_angles_histogram_lengths in Hrun as [Hbins _].
    apply nil_length_inv in Hbins as ->. by rewrite histogram_asserts_empty.
Qed.

(** X16: in any reading of [double] and for any formatting of a [double],
    with at least one interval, whenever [radius_ratio_histogram_data]
    returns, [radius_ratio_matplotlib_histogram] returns too (both its
    assertions hold) and the script lists the bins and the values in order,
    separated by a comma and a space, between the fixed lines of the
    plot. *)
Theorem radius_ratio_matplotlib_histogram_script {D : Type} `{Double D} `{Format D}
    (mesh : Mesh D) (num_intervals : Z) (bins values : list D) :
  (0 < num_intervals)%Z →
  radius_ratio_histogram_data mesh num_intervals = Returns (bins, values) →
  radius_ratio_matplotlib_histogram mesh num_intervals
  = Returns (script [
      "def plot_histogram():";
      "    import matplotlib.pyplot";
      "    bins = [" ++ String.concat ", " (show_double <$> bins) ++ "]";
      "    values = [" ++ String.concat ", " (show_double <$> values) ++ "]";
      "";
      "    matplotlib.pylab.xlim([0, 1])";
      "    width = 0.7*(bins[1] - bins[0])";
      "    matplotlib.pylab.xlabel('radius ratio')";
      "    matplotlib.pylab.ylabel('number of cells')";
      "    matplotlib.pylab.bar(bins, values, align='center', width=width)";
      "    matplotlib.pylab.show()";
      "";
      "try:";
      "    import matplotlib.pylab";
      "except ImportError:";
      "    print(" ++ dquote
        ++ "Plotting mesh quality histogram requires Matplotlib" ++ dquote ++ ")";
      "else:";
      "    plot_histogram()"
    ]%string).
Proof.
  intros Hn Hrun. unfold radius_ratio_matplotlib_histogram. rewrite Hrun. simpl mbind.
  apply radius_ratio_histogram_lengths in Hrun as [Hbins Hvalues].
  assert (Hne : bins ≠ []) by (intros ->; simpl in Hbins; lia).
  assert (Hlen : length bins = length values) by congruence.
  rewrite (histogram_asserts_pass bins values Hne Hlen). simpl mbind.
  rewrite (histogram_lists_join bins values Hne Hlen). reflexivity.
Qed.

Lemma radius_ratio_matplotlib_histogram_script_witness :
  let bins := bin_centers (1 / inject_Z 4)%Q 4 in
  let values := [0; 0; 1; 1]%Q in
  radius_ratio_matplotlib_histogram (two_cells Q (1 # 2) 1%Q) 4
  = Returns (script [
      "def plot_histogram():";
      "    import matplotlib.pyplot";
      "    bins = [" ++ String.concat ", " (show_double <$> bins) ++ "]";
      "    values = [" ++ String.concat ", " (show_double <$> values) ++ "]";
      "";
      "    matplotlib.pylab.xlim([0, 1])";
      "    width = 0.7*(bins[1] - bins[0])";
      "    matplotlib.pylab.xlabel('radius ratio')";
      "    matplotlib.pylab.ylabel('number of cells')";
      "    matplotlib.pylab.bar(bins, values, align='center', width=width)";
      "    matplotlib.pylab.show()";
      "";
      "try:";
      "    import matplotlib.pylab";
      "except ImportError:";
      "    print(" ++ dquote
        ++ "Plotting mesh quality histogram requires Matplotlib" ++ dquote ++ ")";
      "else:";
      "    plot_histogram()"
    ]%string).
Proof.
  apply radius_ratio_matplotlib_histogram_script; [lia|]. vm_compute. reflexivity.
Defined.

(** X17: in any reading of [double], for any [sqrt], [acos] and formatting
    of a [double], with at least one interval, whenever
    [dihedral_angles_histogram_data] returns,
    [dihedral_angles_matplotlib_histogram] returns too and the script lists
    the bins and the values in order, separated by a comma and a space; it
    sets no limits on the x axis. *)
Theorem dihedral_angles_matplotlib_histogram_script
    {D : Type} `{Double D} `{Libm D} `{Format D}
    (mesh : Mesh D) (num_intervals : Z) (bins values : list D) :
  (0 < num_intervals)%Z →
  dihedral_angles_histogram_data mesh num_intervals = Returns (bins, values) →
  dihedral_angles_matplotlib_histogram mesh num_intervals
  = Returns (script [
      "def plot_histogram():";
      "    import matplotlib.pyplot";
      "    bins = [" ++ String.concat ", " (show_double <$> bins) ++ "]";
      "    values = [" ++ String.concat ", " (show_double <$> values) ++ "]";
      "";
      "    width = 0.7*(bins[1] - bins[0])";
      "    matplotlib.pylab.xlabel('dihedral angles')";
      "    matplotlib.pylab.ylabel('number of edges')";
      "    matplotlib.pylab.bar(bins, values, align='center', width=width)";
      "    matplotlib.pylab.show()";
      "";
      "try:";
      "    import matplotlib.pylab";
      "except ImportError:";
      "    print(" ++ dquote
        ++ "Plotting mesh quality histogram requires Matplotlib" ++ dquote ++ ")";
      "else:";
      "    plot_histogram()"
    ]%string).
Proof.
  intros Hn Hrun. unfold dihedral_angles_matplotlib_histogram. rewrite Hrun. simpl mbind.
  apply dihedral_angles_histogram_lengths in Hrun as [Hbins Hvalues].
  assert (Hne : bins ≠ []) by (intros ->; simpl in Hbins; lia).
  assert (Hlen : length bins = length values) by congruence.
  rewrite (histogram_asserts_pass bins values Hne Hlen). simpl mbind.
  rewrite (histogram_lists_join bins values Hne Hlen). reflexivity.
Qed.

Lemma dihedral_angles_matplotlib_histogram_script_witness :
  let bins := bin_centers (Q_M_PI / inject_Z 4)%Q 4 in
  let values := [0; 6; 0; 0]%Q in
  dihedral_angles_matplotlib_histogram (mkMesh [corner_tetrahedron] []) 4
  = Returns (script [
      "def plot_histogram():";
      "    import matplotlib.pyplot";
      "    bins = [" ++ String.concat ", " (show_double <$> bins) ++ "]";
      "    values = [" ++ String.concat ", " (show_double <$> values) ++ "]";
      "";
      "    width = 0.7*(bins[1] - bins[0])";
      "    matplotlib.pylab.xlabel('dihedral angles')";
      "    matplotlib.pylab.ylabel('number of edges')";
      "    matplotlib.pylab.bar(bins, values, align='center', width=width)";
      "    matplotlib.pylab.show()";
      "";
      "try:";
      "    import matplotlib.pylab";
      "except ImportError:";
      "    print(" ++ dquote
        ++ "Plotting mesh quality histogram requires Matplotlib" ++ dquote ++ ")";
      "else:";
      "    plot_histogram()"
    ]%string).
Proof.
  apply dihedral_angles_matplotlib_histogram_script; [lia|]. vm_compute. reflexivity.
Defined.

(** X18: the two special cases the histograms clamp for, under binary64
    rounding: for every number of bins from 1 to 1024, a radius ratio of
    exactly 1.0 and a dihedral angle of exactly M_PI get the last slot,
    [num_bins - 1], although the quotient by the rounded bin width need not
    be [num_bins] exactly. *)
Theorem binary64_boundary_values_last_bin (num_bins : Z) :
  (1 <= num_bins <= 1024)%Z →
  bin_slot (1 / f64_of_Z num_bins)%float num_bins 1%float = Returns (num_bins - 1)%Z
  ∧ bin_slot (f64_M_PI / f64_of_Z num_bins)%float num_bins f64_M_PI
    = Returns (num_bins - 1)%Z.
Proof.
  intros Hn. split.
  - exact (binary64_ratio_one_last_bin num_bins Hn).
  - exact (binary64_angle_pi_last_bin num_bins Hn).
Qed.

Lemma binary64_boundary_values_last_bin_witness :
  bin_slot (1 / f64_of_Z 49)%float 49 1%float = Returns (49 - 1)%Z
  ∧ bin_slot (f64_M_PI / f64_of_Z 49)%float 49 f64_M_PI = Returns (49 - 1)%Z.
Proof.
  apply binary64_boundary_values_last_bin. lia.
Defined.
